(** * clone-contract: the reference resolver, the source fetcher and the
      file materializer of [bin/clone.js]

    The development follows the source function by function:
    [tryParseExplorerUrl], [parseArgs], [fetchSource],
    [checkOutputDirectory], [writeSourceWithMerge] and the body of [main].

    What the Node.js platform provides is kept apart from the program:
    - the WHATWG URL parser ([new URL]), [JSON.parse] and the remote lookup
      are fields of the class [Platform]; every general theorem holds for
      any platform;
    - the file system is a finite map from normalised paths to nodes, with
      [mkdir -p], exclusive create, [readFile] and [readdir] written out
      for POSIX paths.

    JavaScript values are typed the way the program uses them: a value that
    is a string or [undefined] is an [option string], and truthiness is
    spelled out where the source relies on it. What the program prints is
    left out.

    The writes that [main] starts together are modelled twice: run one
    after the other by [writeSources], and as a pool of tasks whose steps
    come in any order, [poolStep]. The first is one of the orders of the
    second, and what is proved of a bundle is proved for every order where
    the order matters.

    The registry that the resolver reads is built by a script of its own;
    its loop is [extractChainInfo], and the resolver is also studied on
    the registry that this loop gives. *)

From stdpp Require Import gmap strings list pretty.
From Stdlib Require Import Ascii ZArith Lia.

(** ** Results *)

Inductive result (E A : Type) : Type :=
| Ok (a : A)
| Err (e : E).
Arguments Ok {E A} a.
Arguments Err {E A} e.

Definition is_ok {E A} (r : result E A) : bool :=
  match r with Ok _ => true | Err _ => false end.

(** ** JavaScript strings *)

Module JS.

(** [!!s] for a value that is a string or [undefined]: the empty string
    and [undefined] are falsy. *)
Definition truthy (v : option string) : bool :=
  match v with
  | Some (String _ _) => true
  | _ => false
  end.

(** [`${v}`]: a template literal prints [undefined] by name. *)
Definition template (v : option string) : string :=
  match v with
  | Some s => s
  | None => "undefined"
  end.

Definition chars : string → list ascii := String.list_ascii_of_string.
Definition of_chars : list ascii → string := String.string_of_list_ascii.

(** [s.toLowerCase()] on the ASCII range; a URL path name is ASCII, the
    parser percent-encodes everything else. *)
Definition lower_char (c : ascii) : ascii :=
  let n := nat_of_ascii c in
  if (65 <=? n)%nat && (n <=? 90)%nat then ascii_of_nat (n + 32) else c.

Fixpoint toLowerCase (s : string) : string :=
  match s with
  | "" => ""
  | String c s' => String (lower_char c) (toLowerCase s')
  end.

(** [s.split(sep)] for a one-character separator: never empty, the empty
    string splits into one empty piece. *)
Fixpoint split (sep : ascii) (s : string) : list string :=
  match s with
  | "" => [""]
  | String c s' =>
      if Ascii.eqb c sep then "" :: split sep s'
      else match split sep s' with
           | piece :: rest => String c piece :: rest
           | [] => [String c ""]
           end
  end.

Definition nonempty (s : string) : bool :=
  match s with "" => false | _ => true end.

(** [l.findIndex(p)], with [None] for [-1]. *)
Fixpoint findIndex {A} (p : A → bool) (l : list A) : option nat :=
  match l with
  | [] => None
  | x :: l' => if p x then Some 0%nat else S <$> findIndex p l'
  end.

(** [l.join(sep)] on an array of strings. *)
Fixpoint join (sep : string) (l : list string) : string :=
  match l with
  | [] => ""
  | [x] => x
  | x :: l' => x +:+ sep +:+ join sep l'
  end.

End JS.

(** ** The address pattern [/^0x[a-fA-F0-9]{40}$/] *)

Definition isHexDigit (c : ascii) : bool :=
  let n := nat_of_ascii c in
  ((48 <=? n) && (n <=? 57) || (65 <=? n) && (n <=? 70)
   || (97 <=? n) && (n <=? 102))%nat.

Definition isAddress (s : string) : bool :=
  match s with
  | String "0"%char (String "x"%char digits) =>
      (String.length digits =? 40)%nat && forallb isHexDigit (JS.chars digits)
  | _ => false
  end.

(** ** The platform *)

(** What the program reads off a parsed URL. *)
Record URL := mkURL { hostname : string; pathname : string }.

(** The value of a parsed JSON text. A number is kept as the decimal text
    JavaScript prints it with. *)
#[warnings="-register-all"]
Inductive JSON :=
| JNull
| JBool (b : bool)
| JNum (text : string)
| JStr (s : string)
| JArr (items : list JSON)
| JObj (members : list (string * JSON)).

(** The body of the remote lookup's answer, with the fields the program
    reads; each is a string when present. *)
Record ApiResponse := mkApi {
  api_result : option string;
  api_contractName : option string;
  api_ext : option string;
  api_proxyAddress : option string;
  api_proxyResult : option string;
  api_proxyContractName : option string;
  api_proxyExt : option string
}.

Class Platform := {
  (** [new URL(s)]: [None] when it throws [ERR_INVALID_URL]. *)
  newURL : string → option URL;
  (** [JSON.parse(s)]: [None] when it throws [SyntaxError]. *)
  JSON_parse : string → option JSON;
  (** [fetch(url)] followed by [response.json()]: [None] when either
      throws. *)
  fetch_json : string → option ApiResponse
}.

(** ** Chain identifiers *)

(** A chain is named on the command line or in an aggregator URL, and is a
    number when it comes from the registry. *)
Inductive ChainId :=
| ChainName (name : string)
| ChainNum (id : Z).

Definition chain_text (c : ChainId) : string :=
  match c with
  | ChainName s => s
  | ChainNum z => pretty z
  end.

#[global] Instance ChainId_eq_dec : EqDecision ChainId.
Proof. solve_decision. Defined.

(** ** [tryParseExplorerUrl] *)

Record ResolvedTarget := mkTarget {
  contractAddress : option string;
  chainId : option ChainId
}.

Inductive ResolveError :=
| InvalidBlockscanUrl
| RegistryUnreadable
| UnsupportedDomain (domain : string)
| AddressNotFound.

Definition aggregatorHost : string := "vscode.blockscan.com".

(** [urlObj.pathname.split("/").filter(Boolean)] *)
Definition pathSegments (u : URL) : list string :=
  filter (λ s, JS.nonempty s) (JS.split "/"%char (pathname u)).

Definition isMarker (segment : string) : bool :=
  bool_decide (JS.toLowerCase segment ∈ ["address"; "token"; "contract"]).

(** Lines 21-43: the aggregator rule. *)
Definition parseBlockscan (segments : list string)
  : result ResolveError ResolvedTarget :=
  match segments with
  | chainIdentifier :: possibleAddress :: _ =>
      if isAddress possibleAddress
      then Ok (mkTarget (Some possibleAddress) (Some (ChainName chainIdentifier)))
      else Err InvalidBlockscanUrl
  | _ => Err InvalidBlockscanUrl
  end.

(** Lines 59-70: the marker lookup and the scan it falls back on. *)
Definition extractAddress (segments : list string) : option string :=
  match JS.findIndex isMarker segments with
  | Some addressIndex =>
      if JS.truthy (segments !! S addressIndex)
      then segments !! S addressIndex
      else List.find isAddress segments
  | None => List.find isAddress segments
  end.

(** Lines 45-82: the generic explorer rule. [domainMap] is the registry
    file [chains.json], [None] when it cannot be read or parsed; a host
    maps to its chain number, and [0] is falsy. Only the registry's own
    members are modelled. *)
Definition parseGeneric (domainMap : option (gmap string Z)) (domain : string)
    (segments : list string) : result ResolveError ResolvedTarget :=
  match domainMap with
  | None => Err RegistryUnreadable
  | Some registry =>
      match registry !! domain with
      | Some id =>
          if (id =? 0)%Z then Err (UnsupportedDomain domain)
          else match extractAddress segments with
               | Some address => Ok (mkTarget (Some address) (Some (ChainNum id)))
               | None => Err AddressNotFound
               end
      | None => Err (UnsupportedDomain domain)
      end
  end.

Section Resolver.
Context {platform : Platform}.
Variable domainMap : option (gmap string Z).

(** The argument is [undefined] when the command line has no contract;
    [new URL] then sees the text of [undefined]. Only [new URL] throws
    [ERR_INVALID_URL], so the handler of lines 83-90 returns the
    argument itself exactly when the URL parser rejects it. *)
Definition tryParseExplorerUrl (url : option string)
  : result ResolveError ResolvedTarget :=
  match newURL (JS.template url) with
  | None => Ok (mkTarget url None)
  | Some urlObj =>
      let domain := hostname urlObj in
      let segments := pathSegments urlObj in
      if decide (domain = aggregatorHost) then parseBlockscan segments
      else parseGeneric domainMap domain segments
  end.

End Resolver.

(** ** [parseArgs] *)

Record Args := mkArgs {
  chain : ChainId;
  contract : option string;
  outputRoot : option string;
  merge : bool
}.

(** [args.indexOf(x)], with [None] for [-1]. *)
Definition indexOf (x : string) (args : list string) : option nat :=
  JS.findIndex (String.eqb x) args.

(** [Math.max(i, j)] on two results of [indexOf]. *)
Definition maxIndex (i j : option nat) : option nat :=
  match i, j with
  | Some a, Some b => Some (a `max` b)
  | Some a, None => Some a
  | None, j => j
  end.

(** Truthiness of what [parsed.chainId] can hold. *)
Definition chainTruthy (c : option ChainId) : bool :=
  match c with
  | Some (ChainName s) => JS.nonempty s
  | Some (ChainNum z) => negb (z =? 0)%Z
  | None => false
  end.

(** [chain || parsed.chainId || "ethereum"] *)
Definition chooseChain (flag : option string) (parsed : option ChainId)
  : ChainId :=
  match flag with
  | Some (String c s) => ChainName (String c s)
  | _ => match parsed with
         | Some c => if chainTruthy parsed then c else ChainName "ethereum"
         | None => ChainName "ethereum"
         end
  end.

Section ParseArgs.
Context {platform : Platform}.
Variable domainMap : option (gmap string Z).

Definition parseArgs (args : list string) : result ResolveError Args :=
  let mergeIndex := maxIndex (indexOf "-m" args) (indexOf "--merge" args) in
  let '(merge, args) :=
    match mergeIndex with
    | Some i => (true, delete i args)
    | None => (false, args)
    end in
  let '(chain, contract, outputRoot) :=
    match indexOf "--chain" args with
    | None => (None, args !! 0%nat, args !! 1%nat)
    | Some updatedChainIndex =>
        let remainingArgs :=
          take updatedChainIndex args ++ drop (updatedChainIndex + 2) args in
        (args !! (updatedChainIndex + 1)%nat,
         remainingArgs !! 0%nat, remainingArgs !! 1%nat)
    end in
  match tryParseExplorerUrl domainMap contract with
  | Err e => Err e
  | Ok parsed =>
      Ok (mkArgs (chooseChain chain (chainId parsed))
                 (contractAddress parsed) outputRoot merge)
  end.

End ParseArgs.

(** ** Reading parsed JSON *)

(** [v.name] for a name no prototype defines ([sources], [settings],
    [remappings], [content]): a member of an object, [undefined] on any
    other value but [null]. An object lists its members in enumeration
    order. *)
Fixpoint member (name : string) (members : list (string * JSON))
  : option JSON :=
  match members with
  | [] => None
  | (k, v) :: rest => if String.eqb k name then Some v else member name rest
  end.

Definition get (name : string) (v : JSON) : option JSON :=
  match v with
  | JObj members => member name members
  | _ => None
  end.

(** [v?.name] on a value that may be [undefined]. *)
Definition getOpt (name : string) (v : option JSON) : option JSON :=
  match v with
  | None | Some JNull => None
  | Some v => get name v
  end.

(** Truthiness of a parsed value that may be [undefined]. *)
Definition jsonTruthy (v : option JSON) : bool :=
  match v with
  | None | Some JNull => false
  | Some (JBool b) => b
  | Some (JNum text) => negb (String.eqb text "0")
  | Some (JStr s) => JS.nonempty s
  | Some (JArr _) | Some (JObj _) => true
  end.

(** ** [fetchSource] *)

Record SourceBundle := mkBundle {
  contractName : option string;
  sources : option JSON;
  remappings : option JSON
}.

Inductive FetchError :=
| RequestFailed
| NoSourceFound.

(** The address of the request, line 131. *)
Definition srcapi (chainOrChainId : ChainId) (contractAddress : option string)
  : string :=
  "https://vscode.blockscan.com/srcapi/" +:+ chain_text chainOrChainId
    +:+ "/" +:+ JS.template contractAddress.

(** Lines 140-142: which fields are read. *)
Definition selectFields (api : ApiResponse)
  : option string * option string * option string :=
  if JS.truthy (api_proxyAddress api)
  then (api_proxyResult api, api_proxyContractName api, api_proxyExt api)
  else (api_result api, api_contractName api, api_ext api).

(** Lines 153-161: the bundle of one file named after the contract. *)
Definition singleFile (contractName ext : option string) (source : string)
  : SourceBundle :=
  mkBundle contractName
    (Some (JObj [(JS.template contractName +:+ "." +:+ JS.template ext,
                  JObj [("content", JStr source)])]))
    None.

Section Fetch.
Context {platform : Platform}.

(** Lines 139-162. [JSON.parse] throwing and [result.sources] throwing on
    [null] both end in the handler of line 153. *)
Definition normalize (api : ApiResponse) : result FetchError SourceBundle :=
  let '(source, contractName, ext) := selectFields api in
  match source with
  | Some (String c s) =>
      let source := String c s in
      match JSON_parse source with
      | Some JNull | None => Ok (singleFile contractName ext source)
      | Some result =>
          Ok (mkBundle contractName (get "sources" result)
                (getOpt "remappings" (get "settings" result)))
      end
  | _ => Err NoSourceFound
  end.

Definition fetchSource (contractAddress : option string)
    (chainOrChainId : ChainId) : result FetchError SourceBundle :=
  match fetch_json (srcapi chainOrChainId contractAddress) with
  | None => Err RequestFailed
  | Some api => normalize api
  end.

End Fetch.

(** ** Paths: POSIX [path.join] and [path.dirname] *)

Module Path.

Definition isSlash (c : ascii) : bool := Ascii.eqb c "/"%char.

Fixpoint takeWhile {A} (p : A → bool) (l : list A) : list A :=
  match l with
  | x :: l' => if p x then x :: takeWhile p l' else []
  | [] => []
  end.

Fixpoint dropWhile {A} (p : A → bool) (l : list A) : list A :=
  match l with
  | x :: l' => if p x then dropWhile p l' else l
  | [] => []
  end.

Definition startsWithSlash (p : string) : bool :=
  match p with String c _ => isSlash c | "" => false end.

Definition endsWithSlash (p : string) : bool :=
  match rev (JS.chars p) with c :: _ => isSlash c | [] => false end.

(** [normalizeString]: the segments kept so far are held last first.
    An empty segment and [.] are dropped; [..] removes the segment
    before it, and is kept in a relative path when there is none. *)
Fixpoint normalizeSegments (allowAboveRoot : bool) (kept : list string)
    (segments : list string) : list string :=
  match segments with
  | [] => rev kept
  | segment :: rest =>
      if decide (segment = "" ∨ segment = ".")
      then normalizeSegments allowAboveRoot kept rest
      else if decide (segment = "..") then
        match kept with
        | last :: kept' =>
            if decide (last = "..")
            then normalizeSegments allowAboveRoot
                   (if allowAboveRoot then ".." :: kept else kept) rest
            else normalizeSegments allowAboveRoot kept' rest
        | [] =>
            normalizeSegments allowAboveRoot
              (if allowAboveRoot then [".."] else []) rest
        end
      else normalizeSegments allowAboveRoot (segment :: kept) rest
  end.

Definition normalize (path : string) : string :=
  match path with
  | "" => "."
  | _ =>
      let isAbsolute := startsWithSlash path in
      let trailingSeparator := endsWithSlash path in
      let body :=
        JS.join "/"
          (normalizeSegments (negb isAbsolute) [] (JS.split "/"%char path)) in
      match body with
      | "" =>
          if isAbsolute then "/"
          else if trailingSeparator then "./" else "."
      | _ =>
          let body := if trailingSeparator then body +:+ "/" else body in
          if isAbsolute then "/" +:+ body else body
      end
  end.

(** [join(a, b)]: the arguments that are not empty, joined by a slash
    and normalised. *)
Definition join (a b : string) : string :=
  match a, b with
  | "", "" => "."
  | "", _ => normalize b
  | _, "" => normalize a
  | _, _ => normalize (a +:+ "/" +:+ b)
  end.

(** [dirname(path)]. The scan runs from the end down to the second
    character: it passes the trailing slashes, then the last component,
    and stops at the slash before it. *)
Definition dirname (path : string) : string :=
  match JS.chars path with
  | [] => "."
  | first :: others =>
      let afterName :=
        dropWhile (λ c, negb (isSlash c)) (dropWhile isSlash (rev others)) in
      match afterName with
      | [] => if isSlash first then "/" else "."
      | _ :: before =>
          match before with
          | [] => if isSlash first then "//" else String first ""
          | _ => JS.of_chars (first :: rev before)
          end
      end
  end.

(** The last component of a normalised path. *)
Definition basename (path : string) : string :=
  JS.of_chars (rev (takeWhile (λ c, negb (isSlash c)) (rev (JS.chars path)))).

End Path.

(** ** The file system *)

Inductive node :=
| File (content : string)
| Dir.

#[global] Instance node_eq_dec : EqDecision node.
Proof. solve_decision. Defined.

Inductive errno := EEXIST | ENOENT | ENOTDIR | EISDIR.

#[global] Instance errno_eq_dec : EqDecision errno.
Proof. solve_decision. Defined.

Module Fs.

(** A state maps the normalised path of every file and directory to its
    node. *)
Abbreviation state := (gmap string node).

(** The paths made of [.], [..] and slashes only name directories that
    are always there: the working directory, its ancestors, the root. *)
Definition builtin (path : string) : bool :=
  forallb (λ s, bool_decide (s = "" ∨ s = "." ∨ s = ".."))
          (JS.split "/"%char path).

Definition nodeAt (fs : state) (path : string) : option node :=
  if builtin path then Some Dir else fs !! path.

(** The directories on the way to [dir], outermost first, [dir] last. *)
Fixpoint prefixes (current : string) (segments : list string)
  : list string :=
  match segments with
  | [] => []
  | segment :: rest =>
      let next :=
        match current with
        | "" => segment
        | "/" => "/" +:+ segment
        | _ => current +:+ "/" +:+ segment
        end in
      next :: prefixes next rest
  end.

Definition chain (dir : string) : list string :=
  prefixes (if Path.startsWithSlash dir then "/" else "")
    (filter (λ s, negb (bool_decide (s = "" ∨ s = ".")))
            (JS.split "/"%char dir)).

(** Walking down to a directory: [ENOENT] at the first missing
    component, [ENOTDIR] at a file. *)
Fixpoint walk (fs : state) (dirs : list string) : result errno unit :=
  match dirs with
  | [] => Ok ()
  | d :: rest =>
      match nodeAt fs d with
      | Some Dir => walk fs rest
      | Some (File _) => Err ENOTDIR
      | None => Err ENOENT
      end
  end.

Definition resolveDir (fs : state) (dir : string) : result errno unit :=
  walk fs (chain dir).

(** [mkdir(dir, { recursive: true })]: the missing components are
    created, the others must be directories. *)
Fixpoint mkdirs (dirs : list string) (fs : state)
  : result errno unit * state :=
  match dirs with
  | [] => (Ok (), fs)
  | d :: rest =>
      match nodeAt fs d with
      | Some Dir => mkdirs rest fs
      | Some (File _) =>
          (Err (match rest with [] => EEXIST | _ => ENOTDIR end), fs)
      | None => mkdirs rest (<[d := Dir]> fs)
      end
  end.

Definition mkdir_recursive (dir : string) (fs : state)
  : result errno unit * state :=
  mkdirs (chain dir) fs.

(** [writeFile(path, data, { flag: "wx" })]: the file is created with
    its content if nothing is at [path], and the call fails with
    [EEXIST] otherwise. A path that ends in a slash names no file. *)
Definition writeFile_wx (path data : string) (fs : state)
  : result errno unit * state :=
  if Path.endsWithSlash path then (Err EISDIR, fs)
  else match nodeAt fs path with
       | Some _ => (Err EEXIST, fs)
       | None =>
           match resolveDir fs (Path.dirname path) with
           | Ok _ => (Ok (), <[path := File data]> fs)
           | Err e => (Err e, fs)
           end
       end.

Definition readFile (path : string) (fs : state) : result errno string :=
  match nodeAt fs path with
  | Some (File content) => Ok content
  | Some Dir => Err EISDIR
  | None => Err ENOENT
  end.

(** The name under which [readdir] reaches a directory. *)
Definition canonical (dir : string) : string :=
  match rev (chain dir) with
  | d :: _ => d
  | [] => if Path.startsWithSlash dir then "/" else "."
  end.

(** [readdir(dir)]: the names of the entries of [dir], hidden ones
    included. *)
Definition readdir (dir : string) (fs : state)
  : result errno (list string) :=
  match resolveDir fs dir with
  | Err e => Err e
  | Ok _ =>
      let here := canonical dir in
      Ok (Path.basename <$>
            filter (λ p, bool_decide (Path.dirname p = here ∧ p ≠ here))
                   (fst <$> map_to_list fs))
  end.

End Fs.

(** ** Programs over the file system *)

(** A failure leaves the state as it was when it was raised: nothing is
    rolled back. *)
Definition IO (E A : Type) : Type := Fs.state → result E A * Fs.state.

Definition ret {E A} (a : A) : IO E A := λ fs, (Ok a, fs).

Definition throw {E A} (e : E) : IO E A := λ fs, (Err e, fs).

Definition bind {E A B} (m : IO E A) (k : A → IO E B) : IO E B :=
  λ fs, match m fs with
        | (Ok a, fs') => k a fs'
        | (Err e, fs') => (Err e, fs')
        end.

Notation "'let*' x ':=' m 'in' k" := (bind m (λ x, k))
  (at level 10, x name, m at level 100, k at level 200).

(** An operation of the platform inside a program, its error wrapped. *)
Definition lift {E A} (wrap : errno → E) (m : Fs.state → result errno A * Fs.state)
  : IO E A :=
  λ fs, match m fs with
        | (Ok a, fs') => (Ok a, fs')
        | (Err e, fs') => (Err (wrap e), fs')
        end.

(** [for (x of l) await f(x)] *)
Fixpoint forEach {E A} (f : A → IO E unit) (l : list A) : IO E unit :=
  match l with
  | [] => ret ()
  | x :: l' => let* _ := f x in forEach f l'
  end.

(** ** [writeSourceWithMerge] *)

Inductive WriteError :=
| FsError (code : errno)
| TooManyConflicts.

(** The match of [/\.[^/.]+$/] in a path: the last dot, when one character
    at least follows it and no slash does. The result is the path without
    the match, and the match (empty when there is none). *)
Definition splitExtension (fullPath : string) : string * string :=
  let backwards := rev (JS.chars fullPath) in
  let notSlashOrDot := λ c, negb (Path.isSlash c || Ascii.eqb c "."%char) in
  match Path.takeWhile notSlashOrDot backwards,
        Path.dropWhile notSlashOrDot backwards with
  | (_ :: _) as tail, "."%char :: before =>
      (JS.of_chars (rev before), JS.of_chars ("."%char :: rev tail))
  | _, _ => (fullPath, "")
  end.

Definition generateFileName (fullPath : string) (counter : nat) : string :=
  match counter with
  | 0 => fullPath
  | _ =>
      let '(baseName, extension) := splitExtension fullPath in
      baseName +:+ ".conflict" +:+ pretty counter +:+ extension
  end.

(** Lines 197-226. [attempts] bounds the recursion; [tryWriteFile] gives it
    one attempt for each counter the test of line 198 lets through. *)
Fixpoint tryWriteFileFrom (fullPath sourceCode : string)
    (attempts counter : nat) : IO WriteError unit :=
  if (1000 <? counter)%nat then throw TooManyConflicts
  else
    match attempts with
    | 0 => throw TooManyConflicts
    | S attempts' =>
        let targetPath := generateFileName fullPath counter in
        let next := tryWriteFileFrom fullPath sourceCode attempts' (S counter) in
        λ fs,
          match Fs.writeFile_wx targetPath sourceCode fs with
          | (Ok _, fs') => (Ok (), fs')
          | (Err EEXIST, fs') =>
              match counter with
              | 0 =>
                  match Fs.readFile targetPath fs' with
                  | Ok existingContent =>
                      if String.eqb existingContent sourceCode
                      then (Ok (), fs')
                      else next fs'
                  | Err e => (Err (FsError e), fs')
                  end
              | _ => next fs'
              end
          | (Err e, fs') => (Err (FsError e), fs')
          end
    end.

Definition tryWriteFile (fullPath sourceCode : string) : IO WriteError unit :=
  tryWriteFileFrom fullPath sourceCode 1001 0.

Definition ensureDir (dir : string) : IO WriteError unit :=
  lift FsError (Fs.mkdir_recursive dir).

Definition writeSourceWithMerge (filePath sourceCode outputRoot : string)
  : IO WriteError unit :=
  let fullPath := Path.join outputRoot filePath in
  let* _ := ensureDir (Path.dirname fullPath) in
  tryWriteFile fullPath sourceCode.

(** ** [checkOutputDirectory] *)

Inductive CheckResult :=
| CheckPassed
| CheckExit (code : Z)
| CheckThrew (code : errno).

Definition checkOutputDirectory (outputRoot : string) (fs : Fs.state)
  : CheckResult :=
  match Fs.readdir outputRoot fs with
  | Ok files => if (0 <? length files)%nat then CheckExit 1 else CheckPassed
  | Err ENOENT => CheckPassed
  | Err e => CheckThrew e
  end.

(** ** The body of [main] *)

Definition newline : string := String "010"%char "".

(** [String(v)] on a parsed value; an array prints its items separated by
    commas. *)
Fixpoint toStringJS (v : JSON) : string :=
  match v with
  | JNull => "null"
  | JBool true => "true"
  | JBool false => "false"
  | JNum text => text
  | JStr s => s
  | JArr items =>
      JS.join ","
        (List.map (λ x, match x with JNull => "" | _ => toStringJS x end) items)
  | JObj _ => "[object Object]"
  end.

(** [items.join(sep)]: [null] prints as nothing. *)
Definition arrayJoin (sep : string) (items : list JSON) : string :=
  JS.join sep
    (List.map (λ x, match x with JNull => "" | _ => toStringJS x end) items).

(** [Object.entries(v)]; [None] when it throws, on [undefined] and
    [null]. *)
Definition objectEntries (v : option JSON) : option (list (string * JSON)) :=
  match v with
  | None | Some JNull => None
  | Some (JObj members) => Some members
  | Some (JArr items) => Some (imap (λ i x, (pretty i, x)) items)
  | Some (JStr s) =>
      Some (imap (λ i c, (pretty i, JStr (String c ""))) (JS.chars s))
  | Some (JBool _) | Some (JNum _) => Some []
  end.

(** [value.content], when it is a string. *)
Definition contentOf (value : JSON) : option string :=
  match get "content" value with
  | Some (JStr content) => Some content
  | _ => None
  end.

(** The files of a bundle, when each entry has the shape
    [path: { content: string }] of the remote interface. *)
Definition sourceFiles (entries : list (string * JSON))
  : option (list (string * string)) :=
  mapM (λ '(key, value), content ← contentOf value; Some (key, content))
       entries.

Inductive MainError :=
| WriteFailed (e : WriteError)
| NotAnArray.

Definition liftWrite {A} (m : IO WriteError A) : IO MainError A :=
  λ fs, match m fs with
        | (Ok a, fs') => (Ok a, fs')
        | (Err e, fs') => (Err (WriteFailed e), fs')
        end.

(** Lines 294-298. The writes that [Promise.all] awaits are run one after
    the other, in the order of [Object.entries]. *)
Definition writeSources (files : list (string * string)) (outputRoot : string)
  : IO MainError unit :=
  forEach (λ '(key, content),
             liftWrite (writeSourceWithMerge key content outputRoot))
          files.

(** Lines 300-307. *)
Definition writeRemappings (remappings : option JSON) (outputRoot : string)
  : IO MainError unit :=
  if jsonTruthy remappings then
    match remappings with
    | Some (JArr items) =>
        let remappingContent := arrayJoin newline items in
        liftWrite
          (writeSourceWithMerge "remappings.txt" remappingContent outputRoot)
    | _ => throw NotAnArray
    end
  else ret ().

Definition writeBundle (files : list (string * string))
    (remappings : option JSON) (outputRoot : string) : IO MainError unit :=
  let* _ := writeSources files outputRoot in
  writeRemappings remappings outputRoot.

(** How a run ends. An entry of [sources] that does not have the shape of
    the remote interface is outside the model. *)
Inductive Outcome :=
| Exited (code : Z) (fs : Fs.state)
| Unmodelled.

(** Lines 290-312: what [main] does with a bundle and a destination. The
    Strict policy is [merge = false]. *)
Definition materialize (merge : bool) (outputRoot : string)
    (bundle : SourceBundle) (fs : Fs.state) : Outcome :=
  match (if merge then CheckPassed else checkOutputDirectory outputRoot fs) with
  | CheckExit code => Exited code fs
  | CheckThrew _ => Exited 1 fs
  | CheckPassed =>
      match objectEntries (sources bundle) with
      | None => Exited 1 fs
      | Some entries =>
          match sourceFiles entries with
          | None => Unmodelled
          | Some files =>
              match writeBundle files (remappings bundle) outputRoot fs with
              | (Ok _, fs') => Exited 0 fs'
              | (Err _, fs') => Exited 1 fs'
              end
          end
      end
  end.

(** Lines 286-288; [None] when [contract.slice] throws on [undefined]. *)
Definition chooseOutputRoot (providedOutputRoot contractName contract : option string)
  : option string :=
  if JS.truthy providedOutputRoot then providedOutputRoot
  else if JS.truthy contractName
  then Some ("./" +:+ JS.template contractName)
  else match contract with
       | Some c => Some ("./Contract_" +:+ String.substring 0 8 c)
       | None => None
       end.

Section Main.
Context {platform : Platform}.
Variable domainMap : option (gmap string Z).

Definition main (args : list string) (fs : Fs.state) : Outcome :=
  if (length args <? 1)%nat || bool_decide ("--help" ∈ args)
     || bool_decide ("-h" ∈ args)
  then Exited 0 fs
  else
    match parseArgs domainMap args with
    | Err _ => Exited 1 fs
    | Ok parsed =>
        match fetchSource (contract parsed) (chain parsed) with
        | Err _ => Exited 1 fs
        | Ok bundle =>
            match chooseOutputRoot (outputRoot parsed) (contractName bundle)
                    (contract parsed) with
            | None => Exited 1 fs
            | Some root => materialize (merge parsed) root bundle fs
            end
        end
    end.

End Main.

(** ** The writes of one run, interleaved

    [Promise.all] starts a [writeSourceWithMerge] for every file before
    it awaits any, and each of them runs from one [await] to the next
    while the others wait: the calls of [mkdir], [writeFile] and
    [readFile] of the different files can come in any order. A task is
    one [writeSourceWithMerge] between two of its awaits. *)

Inductive task :=
| Pending (fullPath sourceCode : string)
| Trying (fullPath sourceCode : string) (counter : nat)
| Reading (fullPath sourceCode : string)
| Finished (r : result WriteError unit).

(** One await of a task: [ensureDir], then [writeFile] for the counter at
    hand, and [readFile] when the first [writeFile] found the path
    taken. *)
Definition taskStep (t : task) (fs : Fs.state) : task * Fs.state :=
  match t with
  | Pending fullPath sourceCode =>
      match ensureDir (Path.dirname fullPath) fs with
      | (Ok _, fs') => (Trying fullPath sourceCode 0, fs')
      | (Err e, fs') => (Finished (Err e), fs')
      end
  | Trying fullPath sourceCode counter =>
      if (1000 <? counter)%nat then (Finished (Err TooManyConflicts), fs)
      else
        let targetPath := generateFileName fullPath counter in
        match Fs.writeFile_wx targetPath sourceCode fs with
        | (Ok _, fs') => (Finished (Ok ()), fs')
        | (Err EEXIST, fs') =>
            match counter with
            | 0 => (Reading fullPath sourceCode, fs')
            | _ => (Trying fullPath sourceCode (S counter), fs')
            end
        | (Err e, fs') => (Finished (Err (FsError e)), fs')
        end
  | Reading fullPath sourceCode =>
      match Fs.readFile fullPath fs with
      | Ok existingContent =>
          if String.eqb existingContent sourceCode
          then (Finished (Ok ()), fs)
          else (Trying fullPath sourceCode 1, fs)
      | Err e => (Finished (Err (FsError e)), fs)
      end
  | Finished r => (Finished r, fs)
  end.


(** The task of a file of the bundle. *)
Definition startTask (outputRoot : string) (write : string * string) : task :=
  Pending (Path.join outputRoot write.1) write.2.

(** The tasks of a run share the file system; any of them takes the next
    step. *)
Inductive poolStep : relation (Fs.state * list task) :=
| pool_step (fs fs' : Fs.state) (pool : list task) (i : nat) (t t' : task) :
    pool !! i = Some t →
    taskStep t fs = (t', fs') →
    poolStep (fs, pool) (fs', <[i := t']> pool).

(** A task that has stopped on an error. *)
Definition failed (t : task) : Prop := ∃ e, t = Finished (Err e).

(** ** The registry generator: [extractChainInfo]

    The registry [chains.json] is written by a script of its own, from
    the chains that [viem/chains] exports. The loop reads three members
    of an export: its number, its name and the address of its default
    explorer. The text of the file, [JSON.stringify] of the map, is left
    out. *)


Section Generator.
Context {platform : Platform}.




End Generator.

(** ** A platform to run the program on

    The examples below run on this platform. Its URL parser covers the
    http and https URLs of the usage text: a lower-case host, then a path
    of letters, digits, [-], [_] and [/]. Its JSON parser covers objects
    with distinct non-numeric keys, arrays, strings with the short
    escapes, integers of at most fifteen digits and the three literals.
    Both reject everything else, as the real parsers do with a string
    that has no scheme and with a text that is not JSON; no example uses
    an input that the real parsers accept and these reject. *)

Module Sample.

Definition between (lo hi : nat) (c : ascii) : bool :=
  let n := nat_of_ascii c in ((lo <=? n) && (n <=? hi))%nat.

Definition isDigit := between 48 57.
Definition isLower := between 97 122.
Definition isUpper := between 65 90.

Definition hostChar (c : ascii) : bool :=
  isLower c || isDigit c || Ascii.eqb c "."%char || Ascii.eqb c "-"%char.

Definition pathChar (c : ascii) : bool :=
  isLower c || isUpper c || isDigit c || Ascii.eqb c "/"%char
  || Ascii.eqb c "_"%char || Ascii.eqb c "-"%char.

Fixpoint stripPrefix (prefix s : string) : option string :=
  match prefix, s with
  | "", _ => Some s
  | String a prefix', String b s' =>
      if Ascii.eqb a b then stripPrefix prefix' s' else None
  | _, "" => None
  end.

Definition httpURL (s : string) : option URL :=
  let afterScheme :=
    match stripPrefix "https://" s with
    | Some rest => Some rest
    | None => stripPrefix "http://" s
    end in
  rest ← afterScheme;
  let cs := JS.chars rest in
  let notSlash := λ c, negb (Path.isSlash c) in
  let host := Path.takeWhile notSlash cs in
  let path := Path.dropWhile notSlash cs in
  if JS.nonempty (JS.of_chars host) && forallb hostChar host
     && forallb pathChar path
  then Some (mkURL (JS.of_chars host)
               (match path with [] => "/" | _ => JS.of_chars path end))
  else None.

Definition quote : ascii := "034"%char.
Definition backslash : ascii := "092"%char.

(** A string between double quotes, for writing JSON texts. *)
Definition q (s : string) : string :=
  String quote s +:+ String quote "".

Definition isSpace (c : ascii) : bool :=
  bool_decide (nat_of_ascii c ∈ [32; 9; 10; 13]).

Fixpoint skipSpace (cs : list ascii) : list ascii :=
  match cs with
  | c :: rest => if isSpace c then skipSpace rest else cs
  | [] => []
  end.

Definition unescape (c : ascii) : option ascii :=
  if Ascii.eqb c quote then Some quote
  else if Ascii.eqb c backslash then Some backslash
  else if Ascii.eqb c "/"%char then Some "/"%char
  else if Ascii.eqb c "b"%char then Some "008"%char
  else if Ascii.eqb c "f"%char then Some "012"%char
  else if Ascii.eqb c "n"%char then Some "010"%char
  else if Ascii.eqb c "r"%char then Some "013"%char
  else if Ascii.eqb c "t"%char then Some "009"%char
  else None.

(** The rest of a string literal, after its opening quote. *)
Fixpoint parseString (cs : list ascii) : option (string * list ascii) :=
  match cs with
  | [] => None
  | c :: rest =>
      if Ascii.eqb c quote then Some ("", rest)
      else if Ascii.eqb c backslash then
        match rest with
        | e :: rest' =>
            ch ← unescape e;
            '(s, after) ← parseString rest';
            Some (String ch s, after)
        | [] => None
        end
      else if (nat_of_ascii c <? 32)%nat then None
      else '(s, after) ← parseString rest; Some (String c s, after)
  end.

Definition parseNumber (cs : list ascii) : option (JSON * list ascii) :=
  let '(negative, cs) :=
    match cs with
    | "-"%char :: rest => (true, rest)
    | _ => (false, cs)
    end in
  let digits := Path.takeWhile isDigit cs in
  let after := Path.dropWhile isDigit cs in
  let wellFormed :=
    match digits with
    | [] => false
    | "0"%char :: _ :: _ => false
    | _ => (length digits <=? 15)%nat
    end in
  let continues :=
    match after with
    | c :: _ => bool_decide (c ∈ ["."%char; "e"%char; "E"%char])
    | [] => false
    end in
  if wellFormed && negb continues then
    let text := JS.of_chars digits in
    Some (JNum (if negative && negb (String.eqb text "0")
                then "-" +:+ text else text), after)
  else None.

Fixpoint parseValue (fuel : nat) (cs : list ascii)
  : option (JSON * list ascii) :=
  match fuel with
  | 0 => None
  | S fuel =>
      match skipSpace cs with
      | "n"%char :: "u"%char :: "l"%char :: "l"%char :: rest =>
          Some (JNull, rest)
      | "t"%char :: "r"%char :: "u"%char :: "e"%char :: rest =>
          Some (JBool true, rest)
      | "f"%char :: "a"%char :: "l"%char :: "s"%char :: "e"%char :: rest =>
          Some (JBool false, rest)
      | "["%char :: rest =>
          match skipSpace rest with
          | "]"%char :: after => Some (JArr [], after)
          | _ => '(items, after) ← parseItems fuel rest;
                 Some (JArr items, after)
          end
      | "{"%char :: rest =>
          match skipSpace rest with
          | "}"%char :: after => Some (JObj [], after)
          | _ => '(members, after) ← parseMembers fuel rest;
                 Some (JObj members, after)
          end
      | c :: rest =>
          if Ascii.eqb c quote
          then '(s, after) ← parseString rest; Some (JStr s, after)
          else parseNumber (c :: rest)
      | [] => None
      end
  end
with parseItems (fuel : nat) (cs : list ascii)
  : option (list JSON * list ascii) :=
  match fuel with
  | 0 => None
  | S fuel =>
      '(v, rest) ← parseValue fuel cs;
      match skipSpace rest with
      | ","%char :: rest' =>
          '(vs, after) ← parseItems fuel rest'; Some (v :: vs, after)
      | "]"%char :: after => Some ([v], after)
      | _ => None
      end
  end
with parseMembers (fuel : nat) (cs : list ascii)
  : option (list (string * JSON) * list ascii) :=
  match fuel with
  | 0 => None
  | S fuel =>
      match skipSpace cs with
      | c :: rest =>
          if Ascii.eqb c quote then
            '(key, rest) ← parseString rest;
            match skipSpace rest with
            | ":"%char :: rest =>
                '(v, rest) ← parseValue fuel rest;
                match skipSpace rest with
                | ","%char :: rest' =>
                    '(ms, after) ← parseMembers fuel rest';
                    Some ((key, v) :: ms, after)
                | "}"%char :: after => Some ([(key, v)], after)
                | _ => None
                end
            | _ => None
            end
          else None
      | [] => None
      end
  end.

(** The keys of every object are distinct and none is a number, so the
    order of the text is the order of enumeration. *)
Fixpoint plainKeys (v : JSON) : bool :=
  match v with
  | JArr items => forallb plainKeys items
  | JObj members =>
      bool_decide (NoDup (fst <$> members))
      && forallb (λ m, negb (forallb isDigit (JS.chars (fst m)))
                       && plainKeys (snd m)) members
  | _ => true
  end.

Definition parseJSON (s : string) : option JSON :=
  '(v, rest) ← parseValue (2 * String.length s + 2) (JS.chars s);
  match skipSpace rest with
  | [] => if plainKeys v then Some v else None
  | _ => None
  end.

Fixpoint lookup (url : string) (table : list (string * ApiResponse))
  : option ApiResponse :=
  match table with
  | [] => None
  | (u, response) :: rest =>
      if String.eqb u url then Some response else lookup url rest
  end.

(** The platform with a remote service that answers from a table. *)
Definition platform (remote : list (string * ApiResponse)) : Platform :=
  {| newURL := httpURL; JSON_parse := parseJSON;
     fetch_json := λ url, lookup url remote |}.

(** A registry of three hosts, in the form the generator script
    writes. *)
Definition registry : gmap string Z :=
  list_to_map [("etherscan.io", 1%Z); ("polygonscan.com", 137%Z);
               ("bscscan.com", 56%Z)].

Definition chains : option (gmap string Z) := Some registry.

End Sample.

(** ** Inputs for the examples *)

Module Example.

Definition address : string := "0xA0b86a33E6441a9C7e0a4F7e1c8b9b8c6a1c1c1c".

Definition explorerUrl : string :=
  "https://etherscan.io/address/" +:+ address.

(** A path whose only marker is its last segment. *)
Definition markerLastUrl : string :=
  "https://etherscan.io/" +:+ address +:+ "/token".

Definition blockscanUrl : string :=
  "https://vscode.blockscan.com/mantle/" +:+ address.

(** One entry of [sources]. *)
Definition file (content : string) : JSON :=
  JObj [("content", JStr content)].

Definition bundleOf (files : list (string * string))
    (remappings : option JSON) : SourceBundle :=
  mkBundle (Some "Token")
    (Some (JObj (List.map (λ f, (f.1, file f.2)) files))) remappings.

(** An answer whose source is the JSON text of an object with no
    file. *)
Definition emptySources : ApiResponse :=
  mkApi (Some ("{" +:+ Sample.q "sources" +:+ ":{}}"))
    (Some "Token") (Some "sol") None None None None.

(** An answer whose source is not JSON. *)
Definition plainSource : ApiResponse :=
  mkApi (Some "contract Token {}") (Some "Token") (Some "sol")
    None None None None.

(** The answer for a proxy whose implementation has no source, while
    the proxy itself has one. *)
Definition proxyWithoutSource : ApiResponse :=
  mkApi (Some "contract Proxy {}") (Some "Proxy") (Some "sol")
    (Some "0x1111111111111111111111111111111111111111")
    (Some "") (Some "Token") (Some "sol").

Definition remote : list (string * ApiResponse) :=
  [(srcapi (ChainName "ethereum") (Some address), emptySources)].

Definition node : Platform := Sample.platform remote.

(** A destination that exists and is empty. *)
Definition out : Fs.state := {[ "out" := Dir ]}.



End Example.

(** ** More inputs for the examples *)

Module Scenario.

(** A standard JSON source with one file and one remapping. *)
Definition standardJson : string :=
  "{" +:+ Sample.q "sources" +:+ ":{" +:+ Sample.q "A.sol" +:+ ":{"
    +:+ Sample.q "content" +:+ ":" +:+ Sample.q "contract A {}" +:+ "}},"
    +:+ Sample.q "settings" +:+ ":{" +:+ Sample.q "remappings" +:+ ":["
    +:+ Sample.q "@x/=lib/x/" +:+ "]}}".

Definition verified : ApiResponse :=
  mkApi (Some standardJson) (Some "Token") (Some "sol") None None None None.

(** An answer whose source is the JSON text of a number. *)
Definition numberSource : ApiResponse :=
  mkApi (Some "123") (Some "Token") (Some "sol") None None None None.

Definition remote : list (string * ApiResponse) :=
  [(srcapi (ChainNum 1) (Some Example.address), verified);
   (srcapi (ChainName "polygon") (Some Example.address), Example.plainSource)].

Definition node : Platform := Sample.platform remote.


(** A destination with a file that a bundle has another content for. *)
Definition taken : Fs.state := <["out/A.sol" := File "old"]> Example.out.


End Scenario.

(** ** Notions used in the statements *)

(** The extraction as the specification words it: the segment after the
    marker when a segment is a marker, the scan only when none is. *)
Definition extractAddress_as_specified (segments : list string)
  : option string :=
  match JS.findIndex isMarker segments with
  | Some addressIndex => segments !! S addressIndex
  | None => List.find isAddress segments
  end.

(** The first marker of a path is its segment number [i]. *)
Definition firstMarkerAt (segments : list string) (i : nat) : Prop :=
  isMarker <$> segments !! i = Some true
  ∧ Forall (λ s, isMarker s = false) (take i segments).

Definition noMarker (segments : list string) : Prop :=
  Forall (λ s, isMarker s = false) segments.

(** [a] is the first segment with the shape of an address. *)
Definition firstAddress (segments : list string) (a : string) : Prop :=
  ∃ before after, segments = before ++ a :: after ∧ isAddress a = true
                  ∧ Forall (λ s, isAddress s = false) before.

Definition noAddress (segments : list string) : Prop :=
  Forall (λ s, isAddress s = false) segments.

(** The scan is reached when no segment is a marker, and when the first
    marker is the last segment. *)
Definition scanReached (segments : list string) : Prop :=
  noMarker segments
  ∨ ∃ i, firstMarkerAt segments i ∧ segments !! S i = None.

Fixpoint slashFree (s : string) : bool :=
  match s with
  | "" => true
  | String c s' => negb (Path.isSlash c) && slashFree s'
  end.

Definition notSlash (c : ascii) : Prop := Path.isSlash c = false.

(** The writes of a run, in order: one for each file of the bundle, then
    the remappings when there are some. Defined when the entries have the
    shape of the remote interface and the remappings, if any, are an
    array. *)
Definition plannedWrites (bundle : SourceBundle)
  : option (list (string * string)) :=
  entries ← objectEntries (sources bundle);
  files ← sourceFiles entries;
  if jsonTruthy (remappings bundle) then
    match remappings bundle with
    | Some (JArr items) =>
        Some (files ++ [("remappings.txt", arrayJoin newline items)])
    | _ => None
    end
  else Some files.

(** The file is where a write of it would put it: the path holds the
    content, and the directory of the path is there. *)
Definition inPlace (fs : Fs.state) (fullPath sourceCode : string) : Prop :=
  Fs.nodeAt fs fullPath = Some (File sourceCode)
  ∧ Path.endsWithSlash fullPath = false
  ∧ Fs.resolveDir fs (Path.dirname fullPath) = Ok ().

(** A task that has succeeded, or is on its way to find its file in
    place. *)
Definition quiet (fs : Fs.state) (t : task) : Prop :=
  t = Finished (Ok ())
  ∨ ∃ fullPath sourceCode,
      inPlace fs fullPath sourceCode
      ∧ (t = Pending fullPath sourceCode ∨ t = Trying fullPath sourceCode 0
         ∨ t = Reading fullPath sourceCode).

(** How far the task of a file has come whose path holds another content:
    when it has succeeded, the content is under a conflict name that was
    free at the start [fs0]. *)
Definition progress (fs0 fs : Fs.state) (fullPath sourceCode : string)
    (t : task) : Prop :=
  t = Pending fullPath sourceCode
  ∨ (∃ counter, t = Trying fullPath sourceCode counter)
  ∨ t = Reading fullPath sourceCode
  ∨ failed t
  ∨ (t = Finished (Ok ())
     ∧ ∃ n, 1 ≤ n ≤ 1000
            ∧ Fs.nodeAt fs0 (generateFileName fullPath n) = None
            ∧ Fs.nodeAt fs (generateFileName fullPath n)
              = Some (File sourceCode)).

(** The path a file of the bundle is written to. *)
Definition targetOf (outputRoot : string) (write : string * string) : string :=
  Path.join outputRoot write.1.

(** No slash and no dot: a file name without extension, or an extension
    without its dot. *)
Definition plainName (s : string) : bool :=
  forallb (λ c, negb (Path.isSlash c || Ascii.eqb c "."%char)) (JS.chars s).

(** The name of one path segment: no slash in it, and not one of the
    segments that stand for a directory itself or its parent. *)
Definition segmentName (s : string) : bool :=
  slashFree s && negb (Fs.builtin s).







(** * Properties *)

(** ** Lists and strings *)

Lemma findIndex_Some {A} (p : A → bool) (l : list A) (i : nat) :
  JS.findIndex p l = Some i ↔
  (∃ x, l !! i = Some x ∧ p x = true)
  ∧ ∀ j y, j < i → l !! j = Some y → p y = false.
Proof.
  revert i. induction l as [|x l IH]; intros i; simpl.
  - split; [done|]. intros [[y [Hy _]] _]. done.
  - destruct (p x) eqn:Hpx.
    + split.
      * intros [= <-]. split; [by exists x|]. intros j y Hj. lia.
      * intros [[y [Hy Hpy]] Hfirst]. destruct i as [|i]; [done|].
        specialize (Hfirst 0 x). simpl in Hfirst.
        rewrite Hfirst in Hpx; [done|lia|done].
    + rewrite fmap_Some. split.
      * intros (k & Hk & ->). apply IH in Hk as [Hat Hfirst]. split; [done|].
        intros [|j] y Hj Hy; simpl in Hy; [by simplify_eq|].
        apply (Hfirst j); [lia|done].
      * intros [[y [Hy Hpy]] Hfirst]. destruct i as [|i]; simpl in Hy.
        { simplify_eq. congruence. }
        exists i. split; [|done]. apply IH. split; [by exists y|].
        intros j z Hj Hz. apply (Hfirst (S j)); [lia|done].
Qed.

Lemma findIndex_None {A} (p : A → bool) (l : list A) :
  JS.findIndex p l = None ↔ ∀ x, x ∈ l → p x = false.
Proof.
  induction l as [|x l IH]; simpl.
  - split; [|done]. intros _ x Hx. by apply elem_of_nil in Hx.
  - destruct (p x) eqn:Hpx.
    + split; [done|]. intros Hall. rewrite Hall in Hpx; [done|left].
    + rewrite fmap_None, IH. split.
      * intros Hall y Hy. apply elem_of_cons in Hy as [->|Hy]; auto.
      * intros Hall y Hy. apply Hall. by right.
Qed.

Lemma find_first {A} (p : A → bool) (l1 l2 : list A) (a : A) :
  Forall (λ x, p x = false) l1 → p a = true →
  List.find p (l1 ++ a :: l2) = Some a.
Proof.
  intros Hl1 Ha. induction Hl1 as [|x l1 Hx _ IH]; simpl.
  - by rewrite Ha.
  - by rewrite Hx.
Qed.

Lemma find_none_iff {A} (p : A → bool) (l : list A) :
  List.find p l = None ↔ Forall (λ x, p x = false) l.
Proof.
  induction l as [|x l IH]; simpl.
  - split; [constructor|done].
  - rewrite Forall_cons. destruct (p x) eqn:Hpx.
    + split; [done|]. by intros [? _].
    + rewrite IH. split; [done|]. by intros [_ ?].
Qed.


(** ** The reference resolver *)

Lemma firstMarkerAt_findIndex (segments : list string) (i : nat) :
  firstMarkerAt segments i ↔ JS.findIndex isMarker segments = Some i.
Proof.
  rewrite findIndex_Some. unfold firstMarkerAt.
  rewrite fmap_Some, Forall_lookup. split.
  - intros [(s & Hs & Hmarker) Hbefore]. split; [by exists s|].
    intros j y Hj Hy. apply (Hbefore j). by rewrite lookup_take_lt.
  - intros [(s & Hs & Hmarker) Hbefore]. split; [by exists s|].
    intros j y [Hy Hj]%lookup_take_Some. by apply (Hbefore j).
Qed.

Lemma noMarker_findIndex (segments : list string) :
  noMarker segments ↔ JS.findIndex isMarker segments = None.
Proof. unfold noMarker. by rewrite findIndex_None, Forall_forall. Qed.

Lemma truthy_nonempty (s : string) : JS.truthy (Some s) = JS.nonempty s.
Proof. by destruct s. Qed.

(** No segment of a path is empty. *)
Lemma pathSegments_nonempty (u : URL) :
  Forall (λ s, JS.nonempty s = true) (pathSegments u).
Proof.
  apply Forall_forall. intros s [Hs _]%list_elem_of_filter.
  by destruct (JS.nonempty s).
Qed.

Lemma extractAddress_marker (segments : list string) (i : nat) (next : string) :
  Forall (λ s, JS.nonempty s = true) segments →
  firstMarkerAt segments i → segments !! S i = Some next →
  extractAddress segments = Some next.
Proof.
  intros Hfilled Hfirst Hnext. unfold extractAddress.
  apply firstMarkerAt_findIndex in Hfirst. rewrite Hfirst, Hnext.
  rewrite truthy_nonempty.
  by rewrite (proj1 (Forall_lookup _ _) Hfilled (S i) next Hnext).
Qed.

Lemma extractAddress_scan (segments : list string) :
  scanReached segments →
  extractAddress segments = List.find isAddress segments.
Proof.
  unfold extractAddress. intros [Hnone|(i & Hfirst & Hlast)].
  - apply noMarker_findIndex in Hnone. by rewrite Hnone.
  - apply firstMarkerAt_findIndex in Hfirst. by rewrite Hfirst, Hlast.
Qed.


Lemma split_slashFree (s : string) :
  slashFree s = true → JS.split "/" s = [s].
Proof.
  induction s as [|c s IH]; simpl; [done|].
  intros [Hc Hs]%andb_prop. unfold Path.isSlash in Hc.
  destruct (Ascii.eqb c "/") eqn:Heq; [done|]. by rewrite IH.
Qed.

Lemma split_app_slash (s1 s2 : string) :
  slashFree s1 = true →
  JS.split "/" (s1 +:+ String "/" s2) = s1 :: JS.split "/" s2.
Proof.
  induction s1 as [|c s1 IH]; simpl; [done|].
  intros [Hc Hs]%andb_prop. unfold Path.isSlash in Hc.
  destruct (Ascii.eqb c "/") eqn:Heq; [done|]. by rewrite IH.
Qed.

Lemma isHexDigit_not_slash (c : ascii) :
  isHexDigit c = true → Path.isSlash c = false.
Proof.
  destruct c as [[] [] [] [] [] [] [] []]; vm_compute; congruence.
Qed.

Lemma hex_slashFree (digits : string) :
  forallb isHexDigit (JS.chars digits) = true → slashFree digits = true.
Proof.
  induction digits as [|c s IH]; simpl; [done|].
  intros [Hc Hs]%andb_prop. rewrite (isHexDigit_not_slash c Hc). simpl. auto.
Qed.

Lemma isAddress_slashFree (a : string) :
  isAddress a = true → slashFree a = true ∧ a ≠ "".
Proof.
  unfold isAddress. destruct a as [|c0 a]; [done|].
  destruct (ascii_dec c0 "0") as [->|]; [|by destruct c0 as [[] [] [] [] [] [] [] []]].
  destruct a as [|c1 a]; [done|].
  destruct (ascii_dec c1 "x") as [->|]; [|by destruct c1 as [[] [] [] [] [] [] [] []]].
  intros [_ Hhex]%andb_prop. split; [|done].
  simpl. by apply hex_slashFree.
Qed.

(** The segments of the path [/{id}/{addr}]. *)
Lemma pathSegments_pair (host id addr : string) :
  id ≠ "" → slashFree id = true → addr ≠ "" → slashFree addr = true →
  pathSegments (mkURL host ("/" +:+ id +:+ "/" +:+ addr)) = [id; addr].
Proof.
  intros Hid Hfree Haddr Hfree'. unfold pathSegments, pathname.
  change ("/" +:+ id +:+ "/" +:+ addr)
    with (String "/" (id +:+ String "/" addr)).
  change (JS.split "/" (String "/" (id +:+ String "/" addr)))
    with ("" :: JS.split "/" (id +:+ String "/" addr)).
  rewrite split_app_slash, split_slashFree by done.
  destruct id; [done|]. destruct addr; [done|]. reflexivity.
Qed.

Section ResolverFacts.
Context {platform : Platform}.
Variable domainMap : option (gmap string Z).

Lemma resolve_not_url (token : string) :
  newURL token = None →
  tryParseExplorerUrl domainMap (Some token) = Ok (mkTarget (Some token) None).
Proof. intros Hnew. unfold tryParseExplorerUrl. simpl. by rewrite Hnew. Qed.

Lemma resolve_aggregator (token : string) (u : URL) :
  newURL token = Some u → hostname u = aggregatorHost →
  tryParseExplorerUrl domainMap (Some token) = parseBlockscan (pathSegments u).
Proof.
  intros Hnew Hhost. unfold tryParseExplorerUrl. simpl. rewrite Hnew.
  by rewrite decide_True.
Qed.

Lemma resolve_generic (token : string) (u : URL) :
  newURL token = Some u → hostname u ≠ aggregatorHost →
  tryParseExplorerUrl domainMap (Some token)
  = parseGeneric domainMap (hostname u) (pathSegments u).
Proof.
  intros Hnew Hhost. unfold tryParseExplorerUrl. simpl. rewrite Hnew.
  by rewrite decide_False.
Qed.

(** C4. On the aggregator host a path [/{id}/{addr}] with [addr] of the
    shape of an address resolves to [addr] on the chain [id], whatever
    [id] is and whatever the registry holds; segments after the second
    are ignored. The resolution fails when the path has fewer than two
    segments and when the second is not of the shape of an address. *)
Theorem aggregator_resolution (token : string) (u : URL) :
  newURL token = Some u → hostname u = aggregatorHost →
  let resolved := tryParseExplorerUrl domainMap (Some token) in
  (∀ id addr,
      pathname u = "/" +:+ id +:+ "/" +:+ addr →
      id ≠ "" → slashFree id = true → isAddress addr = true →
      resolved = Ok (mkTarget (Some addr) (Some (ChainName id))))
  ∧ (∀ id addr rest,
      pathSegments u = id :: addr :: rest → isAddress addr = true →
      resolved = Ok (mkTarget (Some addr) (Some (ChainName id))))
  ∧ (length (pathSegments u) < 2 → resolved = Err InvalidBlockscanUrl)
  ∧ (∀ second,
      pathSegments u !! 1 = Some second → isAddress second = false →
      resolved = Err InvalidBlockscanUrl).
Proof.
  intros Hnew Hhost resolved. subst resolved.
  rewrite (resolve_aggregator token u Hnew Hhost).
  assert (∀ id addr rest,
      pathSegments u = id :: addr :: rest → isAddress addr = true →
      parseBlockscan (pathSegments u)
      = Ok (mkTarget (Some addr) (Some (ChainName id)))) as Hsegments.
  { intros id addr rest -> Haddr. simpl. by rewrite Haddr. }
  split; [|split; [done|split]].
  - intros id addr Hpath Hid Hfree Haddr.
    apply (Hsegments id addr []); [|done].
    destruct (isAddress_slashFree addr Haddr) as [Hfree' Hne].
    destruct u as [host path]. simpl in Hpath. subst path.
    by apply pathSegments_pair.
  - intros Hshort. destruct (pathSegments u) as [|? [|? ?]]; simpl in *;
      [done|done|lia].
  - intros second Hsecond Hnot.
    destruct (pathSegments u) as [|? [|? ?]]; simpl in *; [done|done|].
    simplify_eq. by rewrite Hnot.
Qed.

(** C3, as amended. On a registered host: when the first marker has a
    segment after it, that segment is the contract address, as it
    stands; the scan for a segment of the shape of an address is reached
    when no segment is a marker and also when the first marker is the
    last segment, and its first match is the contract address; when
    neither gives an address the resolution fails. *)
Theorem generic_resolution (registry : gmap string Z) (token : string)
    (u : URL) (id : Z) :
  domainMap = Some registry →
  newURL token = Some u → hostname u ≠ aggregatorHost →
  registry !! hostname u = Some id → id ≠ 0%Z →
  let segments := pathSegments u in
  let resolved := tryParseExplorerUrl domainMap (Some token) in
  (∀ i next,
      firstMarkerAt segments i → segments !! S i = Some next →
      resolved = Ok (mkTarget (Some next) (Some (ChainNum id))))
  ∧ (∀ a,
      scanReached segments → firstAddress segments a →
      resolved = Ok (mkTarget (Some a) (Some (ChainNum id))))
  ∧ (scanReached segments → noAddress segments →
      resolved = Err AddressNotFound).
Proof.
  intros Hmap Hnew Hhost Hid Hnz segments resolved. subst resolved.
  rewrite (resolve_generic token u Hnew Hhost).
  unfold parseGeneric. rewrite Hmap, Hid.
  destruct (Z.eqb_spec id 0) as [|_]; [done|].
  fold segments. split; [|split].
  - intros i next Hfirst Hnext.
    by rewrite (extractAddress_marker segments i next
                  (pathSegments_nonempty u)).
  - intros a Hscan (before & after & Hsplit & Ha & Hbefore).
    rewrite (extractAddress_scan segments Hscan), Hsplit.
    by rewrite find_first.
  - intros Hscan Hnone. rewrite (extractAddress_scan segments Hscan).
    apply find_none_iff in Hnone. by rewrite Hnone.
Qed.


(** The chain of the [--chain] flag is the chain of the run, whatever the
    contract resolves to. *)
Lemma chain_flag_precedence (flag token : string) (target : ResolvedTarget) :
  flag ≠ "" → flag ≠ "-m" → flag ≠ "--merge" →
  token ≠ "-m" → token ≠ "--merge" →
  tryParseExplorerUrl domainMap (Some token) = Ok target →
  parseArgs domainMap ["--chain"; flag; token]
  = Ok (mkArgs (ChainName flag) (contractAddress target) None false).
Proof.
  intros Hflag Hm Hmerge Hm' Hmerge' Hresolve. unfold parseArgs.
  assert (∀ x, x ≠ "--chain" → x ≠ flag → x ≠ token →
               indexOf x ["--chain"; flag; token] = None) as Habsent.
  { intros x H1 H2 H3. apply findIndex_None. intros y Hy.
    apply String.eqb_neq. intros ->.
    repeat (apply elem_of_cons in Hy as [->|Hy]; [done|]).
    by apply elem_of_nil in Hy. }
  rewrite (Habsent "-m"), (Habsent "--merge") by done.
  change (indexOf "--chain" ["--chain"; flag; token]) with (Some 0).
  cbn -[tryParseExplorerUrl]. rewrite Hresolve. by destruct flag.
Qed.

End ResolverFacts.

(** ** The file system *)

Lemma nodeAt_None (fs : Fs.state) (p : string) :
  Fs.nodeAt fs p = None → fs !! p = None ∧ Fs.builtin p = false.
Proof. unfold Fs.nodeAt. by destruct (Fs.builtin p). Qed.

Lemma nodeAt_File (fs : Fs.state) (p c : string) :
  Fs.nodeAt fs p = Some (File c) ↔ fs !! p = Some (File c) ∧ Fs.builtin p = false.
Proof.
  unfold Fs.nodeAt. destruct (Fs.builtin p).
  - split; [done|]. by intros [_ ?].
  - split; [done|]. by intros [? _].
Qed.

Lemma nodeAt_weaken (fs fs' : Fs.state) (p : string) (n : node) :
  fs ⊆ fs' → Fs.nodeAt fs p = Some n → Fs.nodeAt fs' p = Some n.
Proof.
  unfold Fs.nodeAt. destruct (Fs.builtin p); [done|].
  intros Hsub Hp. by eapply lookup_weaken.
Qed.

Lemma nodeAt_insert (fs : Fs.state) (p : string) (n : node) :
  Fs.nodeAt fs p = None → Fs.nodeAt (<[p := n]> fs) p = Some n.
Proof.
  intros [_ Hb]%nodeAt_None. unfold Fs.nodeAt. rewrite Hb.
  apply lookup_insert_eq.
Qed.

Lemma nodeAt_insert_ne (fs : Fs.state) (p q : string) (n : node) :
  p ≠ q → Fs.nodeAt (<[q := n]> fs) p = Fs.nodeAt fs p.
Proof.
  intros Hne. unfold Fs.nodeAt. destruct (Fs.builtin p); [done|].
  by apply lookup_insert_ne.
Qed.

Lemma insert_fresh_subseteq (fs : Fs.state) (p : string) (n : node) :
  Fs.nodeAt fs p = None → fs ⊆ <[p := n]> fs.
Proof. intros [Hp _]%nodeAt_None. by apply insert_subseteq. Qed.

Lemma walk_weaken (fs fs' : Fs.state) (dirs : list string) :
  fs ⊆ fs' → Fs.walk fs dirs = Ok () → Fs.walk fs' dirs = Ok ().
Proof.
  intros Hsub. induction dirs as [|d dirs IH]; simpl; [done|].
  destruct (Fs.nodeAt fs d) as [[c|]|] eqn:Hd; [done| |done].
  rewrite (nodeAt_weaken fs fs' d Dir Hsub Hd). apply IH.
Qed.

Lemma walk_error (fs : Fs.state) (dirs : list string) (e : errno) :
  Fs.walk fs dirs = Err e → e = ENOENT ∨ e = ENOTDIR.
Proof.
  induction dirs as [|d dirs IH]; simpl; [done|].
  destruct (Fs.nodeAt fs d) as [[c|]|]; naive_solver.
Qed.

Lemma mkdirs_subseteq (dirs : list string) (fs fs' : Fs.state)
    (r : result errno unit) :
  Fs.mkdirs dirs fs = (r, fs') → fs ⊆ fs'.
Proof.
  revert fs. induction dirs as [|d dirs IH]; intros fs; simpl.
  - by intros [= _ <-].
  - destruct (Fs.nodeAt fs d) as [[c|]|] eqn:Hd.
    + by intros [= _ <-].
    + apply IH.
    + intros Hrest. etrans; [|by apply (IH _ Hrest)].
      by apply insert_fresh_subseteq.
Qed.

Lemma mkdirs_walk (dirs : list string) (fs fs' : Fs.state) :
  Fs.mkdirs dirs fs = (Ok (), fs') → Fs.walk fs' dirs = Ok ().
Proof.
  revert fs. induction dirs as [|d dirs IH]; intros fs; simpl; [done|].
  destruct (Fs.nodeAt fs d) as [[c|]|] eqn:Hd; [done| |].
  - intros Hrest. pose proof (mkdirs_subseteq _ _ _ _ Hrest) as Hsub.
    rewrite (nodeAt_weaken fs fs' d Dir Hsub Hd). by apply (IH fs).
  - intros Hrest. pose proof (mkdirs_subseteq _ _ _ _ Hrest) as Hsub.
    rewrite (nodeAt_weaken _ fs' d Dir Hsub (nodeAt_insert fs d Dir Hd)).
    by apply (IH (<[d := Dir]> fs)).
Qed.

Lemma mkdirs_present (dirs : list string) (fs : Fs.state) :
  Fs.walk fs dirs = Ok () → Fs.mkdirs dirs fs = (Ok (), fs).
Proof.
  induction dirs as [|d dirs IH]; simpl; [done|].
  destruct (Fs.nodeAt fs d) as [[c|]|]; [done|apply IH|done].
Qed.

(** [mkdir] creates directories only. *)
Lemma mkdirs_files (dirs : list string) (fs fs' : Fs.state)
    (r : result errno unit) (p c : string) :
  Fs.mkdirs dirs fs = (r, fs') →
  Fs.nodeAt fs' p = Some (File c) → Fs.nodeAt fs p = Some (File c).
Proof.
  revert fs. induction dirs as [|d dirs IH]; intros fs; simpl.
  - by intros [= _ <-].
  - destruct (Fs.nodeAt fs d) as [[c'|]|] eqn:Hd.
    + by intros [= _ <-].
    + apply IH.
    + intros Hrest Hp. specialize (IH _ Hrest Hp).
      destruct (decide (p = d)) as [->|Hne].
      * by rewrite (nodeAt_insert fs d Dir Hd) in IH.
      * by rewrite nodeAt_insert_ne in IH.
Qed.

Lemma writeFile_wx_cases (path data : string) (fs fs' : Fs.state)
    (r : result errno unit) :
  Fs.writeFile_wx path data fs = (r, fs') →
  (r = Ok () ∧ Path.endsWithSlash path = false ∧ Fs.nodeAt fs path = None
   ∧ Fs.resolveDir fs (Path.dirname path) = Ok ()
   ∧ fs' = <[path := File data]> fs)
  ∨ (r = Err EEXIST ∧ fs' = fs ∧ Path.endsWithSlash path = false
     ∧ is_Some (Fs.nodeAt fs path))
  ∨ (∃ e, r = Err e ∧ e ≠ EEXIST ∧ fs' = fs).
Proof.
  unfold Fs.writeFile_wx.
  destruct (Path.endsWithSlash path).
  { intros [= <- <-]. right. right. by exists EISDIR. }
  destruct (Fs.nodeAt fs path) as [n|] eqn:Hn.
  { intros [= <- <-]. right. left. eauto. }
  destruct (Fs.resolveDir fs (Path.dirname path)) as [[]|e] eqn:Hdir.
  - intros [= <- <-]. by left.
  - intros [= <- <-]. right. right. exists e.
    by destruct (walk_error _ _ _ Hdir) as [-> | ->].
Qed.

(** ** [writeSourceWithMerge] *)

Lemma tryWriteFileFrom_unfold (fullPath sourceCode : string)
    (attempts counter : nat) (fs : Fs.state) :
  tryWriteFileFrom fullPath sourceCode attempts counter fs =
  if (1000 <? counter)%nat then (Err TooManyConflicts, fs)
  else
    match attempts with
    | 0 => (Err TooManyConflicts, fs)
    | S attempts' =>
        let targetPath := generateFileName fullPath counter in
        let next := tryWriteFileFrom fullPath sourceCode attempts' (S counter) in
        match Fs.writeFile_wx targetPath sourceCode fs with
        | (Ok _, fs') => (Ok (), fs')
        | (Err EEXIST, fs') =>
            match counter with
            | 0 =>
                match Fs.readFile targetPath fs' with
                | Ok existingContent =>
                    if String.eqb existingContent sourceCode
                    then (Ok (), fs')
                    else next fs'
                | Err e => (Err (FsError e), fs')
                end
            | _ => next fs'
            end
        | (Err e, fs') => (Err (FsError e), fs')
        end
    end.
Proof.
  destruct attempts; simpl; by destruct (1000 <? counter)%nat.
Qed.

Arguments tryWriteFileFrom : simpl never.

(** The bound on the recursion is never what stops it: with an attempt
    left for every counter up to 1000, the result does not depend on how
    many attempts are given. *)
Lemma tryWriteFileFrom_attempts (fullPath sourceCode : string)
    (attempts attempts' counter : nat) (fs : Fs.state) :
  1001 ≤ attempts + counter → 1001 ≤ attempts' + counter →
  tryWriteFileFrom fullPath sourceCode attempts counter fs
  = tryWriteFileFrom fullPath sourceCode attempts' counter fs.
Proof.
  revert attempts' counter fs.
  induction attempts as [|attempts IH]; intros attempts' counter fs H1 H2.
  - rewrite !tryWriteFileFrom_unfold.
    destruct (Nat.ltb_spec 1000 counter); [done|lia].
  - rewrite !tryWriteFileFrom_unfold.
    destruct (Nat.ltb_spec 1000 counter); [done|].
    destruct attempts' as [|attempts']; [lia|]. simpl.
    destruct (Fs.writeFile_wx _ _ fs) as [[[]|[]] fs']; try done.
    destruct counter as [|counter].
    + destruct (Fs.readFile _ fs'); [|done].
      destruct (String.eqb _ _); [done|]. apply IH; lia.
    + apply IH; lia.
Qed.

(** No write removes or changes what is there. *)
Lemma tryWriteFileFrom_subseteq (fullPath sourceCode : string)
    (attempts counter : nat) (fs fs' : Fs.state) (r : result WriteError unit) :
  tryWriteFileFrom fullPath sourceCode attempts counter fs = (r, fs') →
  fs ⊆ fs'.
Proof.
  revert counter fs.
  induction attempts as [|attempts IH]; intros counter fs;
    rewrite tryWriteFileFrom_unfold;
    destruct (1000 <? counter)%nat; try by intros [= _ <-].
  simpl.
  destruct (Fs.writeFile_wx _ _ fs) as [r' fs''] eqn:Hw.
  apply writeFile_wx_cases in Hw
    as [(-> & _ & Hfree & _ & ->)|[(-> & -> & _)|(e & -> & Hne & ->)]].
  - intros [= _ <-]. by apply insert_fresh_subseteq.
  - destruct counter as [|counter].
    + destruct (Fs.readFile _ fs); [|by intros [= _ <-]].
      destruct (String.eqb _ _); [by intros [= _ <-]|]. apply IH.
    + apply IH.
  - destruct e; try done; by intros [= _ <-].
Qed.

(** The first attempt, at the path itself. *)
Lemma tryWriteFile_first (fullPath sourceCode : string) (fs : Fs.state) :
  tryWriteFile fullPath sourceCode fs =
  match Fs.writeFile_wx fullPath sourceCode fs with
  | (Ok _, fs') => (Ok (), fs')
  | (Err EEXIST, fs') =>
      match Fs.readFile fullPath fs' with
      | Ok existingContent =>
          if String.eqb existingContent sourceCode then (Ok (), fs')
          else tryWriteFileFrom fullPath sourceCode 1000 1 fs'
      | Err e => (Err (FsError e), fs')
      end
  | (Err e, fs') => (Err (FsError e), fs')
  end.
Proof. unfold tryWriteFile. by rewrite tryWriteFileFrom_unfold. Qed.

Lemma tryWriteFile_identical (fullPath sourceCode : string) (fs : Fs.state) :
  Fs.nodeAt fs fullPath = Some (File sourceCode) →
  Path.endsWithSlash fullPath = false →
  tryWriteFile fullPath sourceCode fs = (Ok (), fs).
Proof.
  intros Hnode Hslash. rewrite tryWriteFile_first.
  unfold Fs.writeFile_wx, Fs.readFile. rewrite Hslash, Hnode. simpl.
  rewrite Hnode. by rewrite String.eqb_refl.
Qed.

Lemma tryWriteFile_fresh (fullPath sourceCode : string) (fs fs' : Fs.state) :
  (∀ c, Fs.nodeAt fs fullPath ≠ Some (File c)) →
  tryWriteFile fullPath sourceCode fs = (Ok (), fs') →
  Fs.nodeAt fs fullPath = None ∧ fs' = <[fullPath := File sourceCode]> fs.
Proof.
  intros Hnofile. rewrite tryWriteFile_first.
  destruct (Fs.writeFile_wx _ _ fs) as [r fs''] eqn:Hw.
  apply writeFile_wx_cases in Hw
    as [(-> & _ & Hfree & _ & ->)|[(-> & -> & _ & [n Hn])|(e & -> & Hne & ->)]].
  - by intros [= <-].
  - unfold Fs.readFile. rewrite Hn. destruct n as [c|]; [|done].
    by destruct (Hnofile c).
  - by destruct e.
Qed.

(** From the first conflict name on, a write that succeeds creates the
    first name that is free, and nothing else. *)
Lemma conflict_chain (fullPath sourceCode : string) (attempts counter : nat)
    (fs fs' : Fs.state) :
  1 ≤ counter →
  tryWriteFileFrom fullPath sourceCode attempts counter fs = (Ok (), fs') →
  ∃ n, counter ≤ n ≤ 1000
       ∧ Fs.nodeAt fs (generateFileName fullPath n) = None
       ∧ fs' = <[generateFileName fullPath n := File sourceCode]> fs
       ∧ ∀ m, counter ≤ m < n →
              is_Some (Fs.nodeAt fs (generateFileName fullPath m)).
Proof.
  revert counter.
  induction attempts as [|attempts IH]; intros counter Hpos;
    rewrite tryWriteFileFrom_unfold;
    destruct (Nat.ltb_spec 1000 counter) as [|Hle]; try done.
  simpl. destruct (Fs.writeFile_wx _ _ fs) as [r fs''] eqn:Hw.
  apply writeFile_wx_cases in Hw
    as [(-> & _ & Hfree & _ & ->)|[(-> & -> & _ & Hbusy)|(e & -> & Hne & ->)]].
  - intros [= <-]. exists counter. split; [lia|]. split; [done|].
    split; [done|]. intros m Hm. lia.
  - destruct counter as [|counter]; [lia|]. intros Hnext.
    apply IH in Hnext as (n & Hn & Hfree & -> & Hbelow); [|lia].
    exists n. split; [lia|]. split; [done|]. split; [done|].
    intros m Hm. destruct (decide (m = S counter)) as [->|]; [done|].
    apply Hbelow. lia.
  - by destruct e.
Qed.

Lemma tryWriteFile_conflict (fullPath c1 c2 : string) (fs fs' : Fs.state) :
  Fs.nodeAt fs fullPath = Some (File c1) → c1 ≠ c2 →
  tryWriteFile fullPath c2 fs = (Ok (), fs') →
  ∃ n, 1 ≤ n ≤ 1000
       ∧ Fs.nodeAt fs (generateFileName fullPath n) = None
       ∧ fs' = <[generateFileName fullPath n := File c2]> fs
       ∧ ∀ m, 1 ≤ m < n → is_Some (Fs.nodeAt fs (generateFileName fullPath m)).
Proof.
  intros Hnode Hdiff. rewrite tryWriteFile_first.
  destruct (Fs.writeFile_wx _ _ fs) as [r fs''] eqn:Hw.
  apply writeFile_wx_cases in Hw
    as [(-> & _ & Hfree & _ & ->)|[(-> & -> & _ & _)|(e & -> & Hne & ->)]].
  - congruence.
  - unfold Fs.readFile. rewrite Hnode.
    destruct (String.eqb_spec c1 c2) as [|_]; [done|].
    by apply conflict_chain.
  - by destruct e.
Qed.

Lemma tryWriteFile_not_slash (fullPath sourceCode : string) (fs fs' : Fs.state) :
  tryWriteFile fullPath sourceCode fs = (Ok (), fs') →
  Path.endsWithSlash fullPath = false.
Proof.
  rewrite tryWriteFile_first.
  unfold Fs.writeFile_wx. by destruct (Path.endsWithSlash fullPath).
Qed.

Lemma ensureDir_cases (dir : string) (fs fs' : Fs.state)
    (r : result WriteError unit) :
  ensureDir dir fs = (r, fs') →
  fs ⊆ fs'
  ∧ (r = Ok () → Fs.resolveDir fs' dir = Ok ())
  ∧ ∀ p c, Fs.nodeAt fs' p = Some (File c) → Fs.nodeAt fs p = Some (File c).
Proof.
  unfold ensureDir, lift, Fs.mkdir_recursive, Fs.resolveDir.
  destruct (Fs.mkdirs (Fs.chain dir) fs) as [r' fs''] eqn:Hmk.
  intros Hr. assert (fs'' = fs') as -> by (by destruct r'; simplify_eq).
  split; [by eapply mkdirs_subseteq|]. split.
  - intros ->. destruct r' as [[]|]; [|done]. by eapply mkdirs_walk.
  - intros p c. by eapply mkdirs_files.
Qed.

Lemma ensureDir_present (dir : string) (fs : Fs.state) :
  Fs.resolveDir fs dir = Ok () → ensureDir dir fs = (Ok (), fs).
Proof.
  intros Hdir. unfold ensureDir, lift, Fs.mkdir_recursive.
  by rewrite mkdirs_present.
Qed.

Lemma writeSourceWithMerge_unfold (filePath sourceCode outputRoot : string)
    (fs : Fs.state) :
  writeSourceWithMerge filePath sourceCode outputRoot fs =
  let fullPath := Path.join outputRoot filePath in
  match ensureDir (Path.dirname fullPath) fs with
  | (Ok _, fs') => tryWriteFile fullPath sourceCode fs'
  | (Err e, fs') => (Err e, fs')
  end.
Proof. reflexivity. Qed.

(** Every path that holds something keeps it, whether the write succeeds
    or fails. *)
Lemma writeSourceWithMerge_subseteq (filePath sourceCode outputRoot : string)
    (fs fs' : Fs.state) (r : result WriteError unit) :
  writeSourceWithMerge filePath sourceCode outputRoot fs = (r, fs') →
  fs ⊆ fs'.
Proof.
  rewrite writeSourceWithMerge_unfold. simpl.
  destruct (ensureDir _ fs) as [r' fs''] eqn:Hdir.
  apply ensureDir_cases in Hdir as (Hsub & _ & _).
  destruct r' as [[]|e].
  - intros Hwrite. etrans; [done|].
    by eapply tryWriteFileFrom_subseteq.
  - by intros [= _ <-].
Qed.

(** What a write that succeeds tells about its path. *)
Lemma writeSourceWithMerge_ok (filePath sourceCode outputRoot : string)
    (fs fs' : Fs.state) :
  writeSourceWithMerge filePath sourceCode outputRoot fs = (Ok (), fs') →
  let fullPath := Path.join outputRoot filePath in
  Path.endsWithSlash fullPath = false
  ∧ Fs.resolveDir fs' (Path.dirname fullPath) = Ok ().
Proof.
  rewrite writeSourceWithMerge_unfold. simpl.
  destruct (ensureDir _ fs) as [r' fs''] eqn:Hdir.
  apply ensureDir_cases in Hdir as (Hsub & Hok & _).
  destruct r' as [[]|e]; [|done]. intros Hwrite. split.
  - by eapply tryWriteFile_not_slash.
  - eapply walk_weaken; [|by apply Hok].
    by eapply tryWriteFileFrom_subseteq.
Qed.

(** A file that is in place with the same content is skipped. *)
Lemma writeSourceWithMerge_identical (filePath sourceCode outputRoot : string)
    (fs : Fs.state) :
  let fullPath := Path.join outputRoot filePath in
  Fs.nodeAt fs fullPath = Some (File sourceCode) →
  Path.endsWithSlash fullPath = false →
  Fs.resolveDir fs (Path.dirname fullPath) = Ok () →
  writeSourceWithMerge filePath sourceCode outputRoot fs = (Ok (), fs).
Proof.
  intros fullPath Hnode Hslash Hdir. rewrite writeSourceWithMerge_unfold.
  simpl. fold fullPath. rewrite (ensureDir_present _ _ Hdir).
  by apply tryWriteFile_identical.
Qed.

(** A path that holds no file receives the file. *)
Lemma writeSourceWithMerge_fresh (filePath sourceCode outputRoot : string)
    (fs fs' : Fs.state) :
  let fullPath := Path.join outputRoot filePath in
  (∀ c, Fs.nodeAt fs fullPath ≠ Some (File c)) →
  writeSourceWithMerge filePath sourceCode outputRoot fs = (Ok (), fs') →
  Fs.nodeAt fs' fullPath = Some (File sourceCode)
  ∧ ∀ p c, Fs.nodeAt fs' p = Some (File c) → p ≠ fullPath →
           Fs.nodeAt fs p = Some (File c).
Proof.
  intros fullPath Hnofile. rewrite writeSourceWithMerge_unfold. simpl.
  fold fullPath. destruct (ensureDir _ fs) as [r' fs''] eqn:Hdir.
  apply ensureDir_cases in Hdir as (Hsub & _ & Hfiles).
  destruct r' as [[]|e]; [|done]. intros Hwrite.
  apply tryWriteFile_fresh in Hwrite as [Hfree ->].
  - split; [by apply nodeAt_insert|].
    intros p c Hp Hne. rewrite nodeAt_insert_ne in Hp by done. auto.
  - intros c Hc. apply (Hnofile c). auto.
Qed.

(** A path that holds another content keeps it, and the new content goes
    to the first conflict name that is free. *)
Lemma writeSourceWithMerge_conflict (filePath c1 c2 outputRoot : string)
    (fs fs' : Fs.state) :
  let fullPath := Path.join outputRoot filePath in
  Fs.nodeAt fs fullPath = Some (File c1) → c1 ≠ c2 →
  writeSourceWithMerge filePath c2 outputRoot fs = (Ok (), fs') →
  ∃ n, 1 ≤ n ≤ 1000
       ∧ Fs.nodeAt fs (generateFileName fullPath n) = None
       ∧ Fs.nodeAt fs' (generateFileName fullPath n) = Some (File c2)
       ∧ ∀ m, 1 ≤ m < n → is_Some (Fs.nodeAt fs' (generateFileName fullPath m)).
Proof.
  intros fullPath Hnode Hdiff. rewrite writeSourceWithMerge_unfold. simpl.
  fold fullPath. destruct (ensureDir _ fs) as [r' fs''] eqn:Hdir.
  apply ensureDir_cases in Hdir as (Hsub & _ & _).
  destruct r' as [[]|e]; [|done]. intros Hwrite.
  apply (tryWriteFile_conflict fullPath c1 c2) in Hwrite
    as (n & Hn & Hfree & -> & Hbelow); [|by eapply nodeAt_weaken|done].
  exists n. split; [done|]. split; [|split].
  - destruct (Fs.nodeAt fs (generateFileName fullPath n)) as [x|] eqn:Hx; [|done].
    by rewrite (nodeAt_weaken _ _ _ _ Hsub Hx) in Hfree.
  - by apply nodeAt_insert.
  - intros m Hm. destruct (Hbelow m Hm) as [x Hx]. exists x.
    eapply nodeAt_weaken; [|done]. by apply insert_fresh_subseteq.
Qed.

(** ** Conflict names stay in the directory of the file *)

Lemma chars_of_chars (l : list ascii) : JS.chars (JS.of_chars l) = l.
Proof. apply String.list_ascii_of_string_of_list_ascii. Qed.

Lemma of_chars_chars (s : string) : JS.of_chars (JS.chars s) = s.
Proof. apply String.string_of_list_ascii_of_string. Qed.

Lemma chars_app (s1 s2 : string) :
  JS.chars (s1 +:+ s2) = JS.chars s1 ++ JS.chars s2.
Proof.
  induction s1 as [|c s1 IH]; [done|].
  change (JS.chars (String c (s1 +:+ s2)) = c :: (JS.chars s1 ++ JS.chars s2)).
  change (c :: JS.chars (s1 +:+ s2) = c :: (JS.chars s1 ++ JS.chars s2)).
  by rewrite IH.
Qed.

Lemma takeWhile_dropWhile {A} (p : A → bool) (l : list A) :
  Path.takeWhile p l ++ Path.dropWhile p l = l.
Proof.
  induction l as [|x l IH]; simpl; [done|].
  destruct (p x); simpl; [by rewrite IH|done].
Qed.

Lemma takeWhile_Forall {A} (p : A → bool) (l : list A) :
  Forall (λ x, p x = true) (Path.takeWhile p l).
Proof.
  induction l as [|x l IH]; simpl; [constructor|].
  destruct (p x) eqn:Hx; by constructor.
Qed.

Lemma dropWhile_app_all {A} (p : A → bool) (l1 l2 : list A) :
  Forall (λ x, p x = true) l1 →
  Path.dropWhile p (l1 ++ l2) = Path.dropWhile p l2.
Proof. induction 1 as [|x l1 Hx _ IH]; simpl; [done|by rewrite Hx]. Qed.

Lemma dropWhile_head {A} (p : A → bool) (l : list A) :
  (∀ x, head l = Some x → p x = false) → Path.dropWhile p l = l.
Proof. destruct l as [|x l]; simpl; [done|]. intros Hx. by rewrite Hx. Qed.

(** The directory of a path depends on what comes before its last
    component only. *)
Lemma dirname_last_component (before : list ascii) (name name' : list ascii) :
  name ≠ [] → name' ≠ [] → Forall notSlash name → Forall notSlash name' →
  Path.dirname (JS.of_chars (before ++ name))
  = Path.dirname (JS.of_chars (before ++ name')).
Proof.
  assert (∀ name, name ≠ [] → Forall notSlash name →
    Path.dirname (JS.of_chars (before ++ name)) =
    match before with
    | [] => "."
    | first :: others =>
        match Path.dropWhile (λ c, negb (Path.isSlash c)) (rev others) with
        | [] => if Path.isSlash first then "/" else "."
        | _ :: [] => if Path.isSlash first then "//" else String first ""
        | _ :: rest => JS.of_chars (first :: rev rest)
        end
    end) as Hshape.
  { clear. intros name Hne Hfree. unfold Path.dirname.
    rewrite chars_of_chars.
    assert (∀ l, Forall notSlash l →
              Forall (λ c, negb (Path.isSlash c) = true) l) as Hneg.
    { intros l Hl. eapply Forall_impl; [done|].
      unfold notSlash. by intros c ->. }
    destruct before as [|first others]; simpl.
    - destruct name as [|first others]; [done|].
      apply Forall_cons in Hfree as [Hfirst Hothers].
      apply Forall_rev in Hothers.
      rewrite (dropWhile_head Path.isSlash).
      + rewrite <-(app_nil_r (rev others)), dropWhile_app_all by auto.
        simpl. unfold notSlash in Hfirst. by rewrite Hfirst.
      + intros x Hx. apply head_Some_elem_of in Hx.
        by apply (proj1 (Forall_forall _ _) Hothers).
    - rewrite rev_app_distr. apply Forall_rev in Hfree.
      rewrite (dropWhile_head Path.isSlash).
      + rewrite dropWhile_app_all by auto.
        by destruct (Path.dropWhile _ (rev others)) as [|? [|? ?]].
      + intros x Hx. destruct (rev name) as [|y l] eqn:Hrev.
        { apply (f_equal (@rev ascii)) in Hrev.
          rewrite rev_involutive in Hrev. done. }
        simpl in Hx. simplify_eq. by apply Forall_cons in Hfree as [? _]. }
  intros. by rewrite !Hshape.
Qed.

Lemma endsWithSlash_last_component (before name : list ascii) :
  name ≠ [] → Forall notSlash name →
  Path.endsWithSlash (JS.of_chars (before ++ name)) = false.
Proof.
  intros Hne Hfree. unfold Path.endsWithSlash.
  rewrite chars_of_chars, rev_app_distr.
  apply Forall_rev in Hfree. destruct (rev name) as [|y l] eqn:Hrev.
  - apply (f_equal (@rev ascii)) in Hrev. by rewrite rev_involutive in Hrev.
  - simpl. by apply Forall_cons in Hfree as [? _].
Qed.

Lemma pretty_N_go_notSlash (x : N) (s : string) :
  Forall notSlash (JS.chars s) → Forall notSlash (JS.chars (pretty_N_go x s)).
Proof.
  revert s. induction (N.lt_wf_0 x) as [x _ IH]; intros s Hs.
  destruct (decide (x = 0)%N) as [->|Hpos]; [done|].
  rewrite pretty_N_go_step by lia. apply IH.
  - apply N.div_lt; lia.
  - change (JS.chars (String ?c s)) with (c :: JS.chars s).
    constructor; [|done].
    unfold pretty_N_char. by repeat case_match.
Qed.

Lemma pretty_nat_notSlash (n : nat) : Forall notSlash (JS.chars (pretty n)).
Proof.
  unfold pretty, pretty_nat, pretty, pretty_N.
  case_decide; [by repeat constructor|].
  apply pretty_N_go_notSlash. constructor.
Qed.

Lemma splitExtension_cases (fullPath : string) :
  splitExtension fullPath = (fullPath, "")
  ∨ ∃ before tail,
      tail ≠ [] ∧ Forall notSlash tail
      ∧ JS.chars fullPath = before ++ "."%char :: tail
      ∧ splitExtension fullPath
        = (JS.of_chars before, JS.of_chars ("."%char :: tail)).
Proof.
  unfold splitExtension.
  set (keep := λ c, negb (Path.isSlash c || Ascii.eqb c ".")).
  pose proof (takeWhile_dropWhile keep (rev (JS.chars fullPath))) as Hsplit.
  pose proof (takeWhile_Forall keep (rev (JS.chars fullPath))) as Hkeep.
  destruct (Path.takeWhile keep (rev (JS.chars fullPath))) as [|t0 t]; [by left|].
  destruct (Path.dropWhile keep (rev (JS.chars fullPath))) as [|d0 d]; [by left|].
  destruct (ascii_dec d0 ".") as [->|Hne].
  - right. exists (rev d), (rev (t0 :: t)). split; [|split; [|split]].
    + intros Hrev. apply (f_equal (@rev ascii)) in Hrev.
      by rewrite rev_involutive in Hrev.
    + apply Forall_rev. eapply Forall_impl; [done|].
      intros c. unfold keep, notSlash. by destruct (Path.isSlash c).
    + rewrite <-(rev_involutive (JS.chars fullPath)), <-Hsplit.
      rewrite rev_app_distr. simpl. by rewrite <-!app_assoc.
    + done.
  - left. destruct d0 as [[] [] [] [] [] [] [] []]; try done.
Qed.

(** A conflict name differs from the path in its last component only. *)
Lemma generateFileName_shape (fullPath : string) (n : nat) :
  fullPath ≠ "" → Path.endsWithSlash fullPath = false →
  ∃ before name name',
    fullPath = JS.of_chars (before ++ name)
    ∧ generateFileName fullPath n = JS.of_chars (before ++ name')
    ∧ name ≠ [] ∧ name' ≠ [] ∧ Forall notSlash name ∧ Forall notSlash name'.
Proof.
  intros Hne Hslash.
  assert (∃ before name, JS.chars fullPath = before ++ name ∧ name ≠ []
                         ∧ Forall notSlash name) as (before & name & Hchars & Hname & Hfree).
  { unfold Path.endsWithSlash in Hslash.
    pose proof (takeWhile_dropWhile (λ c, negb (Path.isSlash c))
                  (rev (JS.chars fullPath))) as Hsplit.
    pose proof (takeWhile_Forall (λ c, negb (Path.isSlash c))
                  (rev (JS.chars fullPath))) as Hkeep.
    exists (rev (Path.dropWhile (λ c, negb (Path.isSlash c)) (rev (JS.chars fullPath)))),
           (rev (Path.takeWhile (λ c, negb (Path.isSlash c)) (rev (JS.chars fullPath)))).
    split; [|split].
    - by rewrite <-rev_app_distr, Hsplit, rev_involutive.
    - destruct (rev (JS.chars fullPath)) as [|c l] eqn:Hrev.
      + apply (f_equal (@rev ascii)) in Hrev. rewrite rev_involutive in Hrev.
        simpl in Hrev. destruct fullPath; done.
      + simpl. rewrite Hslash. simpl. intros Hnil.
        by apply app_eq_nil in Hnil as [_ ?].
    - apply Forall_rev. eapply Forall_impl; [done|].
      intros c. unfold notSlash. by destruct (Path.isSlash c). }
  assert (Forall notSlash (JS.chars (".conflict" +:+ pretty n))) as Hmid.
  { rewrite chars_app. apply Forall_app. split; [by repeat constructor|].
    apply pretty_nat_notSlash. }
  destruct n as [|n].
  { exists before, name, name. rewrite <-Hchars, of_chars_chars. done. }
  unfold generateFileName.
  destruct (splitExtension_cases fullPath)
    as [->|(before' & tail & Htail & Hfree' & Hchars' & ->)].
  - exists before, name, (name ++ JS.chars (".conflict" +:+ pretty (S n))).
    split; [by rewrite <-Hchars, of_chars_chars|]. split; [|split; [done|split]].
    + rewrite <-(of_chars_chars (_ +:+ _)). f_equal.
      rewrite !chars_app, Hchars. simpl. by rewrite app_nil_r, <-!app_assoc.
    + destruct name; done.
    + split; [done|]. by apply Forall_app.
  - exists before', ("."%char :: tail),
           (JS.chars (".conflict" +:+ pretty (S n)) ++ "."%char :: tail).
    split; [by rewrite <-Hchars', of_chars_chars|]. split; [|split; [done|split]].
    + rewrite <-(of_chars_chars (_ +:+ _)). f_equal.
      by rewrite !chars_app, !chars_of_chars.
    + intros Hnil. by apply app_eq_nil in Hnil as [_ ?].
    + split; [by constructor|]. apply Forall_app. split; [done|].
      by constructor.
Qed.

Lemma generateFileName_dirname (fullPath : string) (n : nat) :
  fullPath ≠ "" → Path.endsWithSlash fullPath = false →
  Path.dirname (generateFileName fullPath n) = Path.dirname fullPath
  ∧ Path.endsWithSlash (generateFileName fullPath n) = false.
Proof.
  intros Hne Hslash.
  destruct (generateFileName_shape fullPath n Hne Hslash)
    as (before & name & name' & Hfull & -> & ? & ? & ? & ?).
  split.
  - rewrite Hfull. by apply dirname_last_component.
  - by apply endsWithSlash_last_component.
Qed.

(** The first conflict name that is free is created, when there is one
    among the thousand. *)
Lemma conflict_chain_complete (fullPath sourceCode : string) (fs : Fs.state)
    (n : nat) :
  fullPath ≠ "" → Path.endsWithSlash fullPath = false →
  Fs.resolveDir fs (Path.dirname fullPath) = Ok () →
  n ≤ 1000 → Fs.nodeAt fs (generateFileName fullPath n) = None →
  ∀ attempts counter,
    1 ≤ counter ≤ n → n - counter < attempts →
    (∀ m, counter ≤ m < n →
          is_Some (Fs.nodeAt fs (generateFileName fullPath m))) →
    tryWriteFileFrom fullPath sourceCode attempts counter fs
    = (Ok (), <[generateFileName fullPath n := File sourceCode]> fs).
Proof.
  intros Hne Hslash Hdir Hn Hfree.
  induction attempts as [|attempts IH]; intros counter Hc Hatt Hbusy; [lia|].
  rewrite tryWriteFileFrom_unfold.
  destruct (Nat.ltb_spec 1000 counter); [lia|]. simpl.
  destruct (generateFileName_dirname fullPath counter Hne Hslash) as [Hd Hs].
  unfold Fs.writeFile_wx. rewrite Hs.
  destruct (decide (counter = n)) as [->|Hlt].
  - by rewrite Hfree, Hd, Hdir.
  - destruct (Hbusy counter) as [x Hx]; [lia|]. rewrite Hx.
    destruct counter as [|counter]; [lia|]. apply IH; [lia..|].
    intros m Hm. apply Hbusy. lia.
Qed.

Lemma conflict_chain_exhausted (fullPath sourceCode : string) (fs : Fs.state) :
  fullPath ≠ "" → Path.endsWithSlash fullPath = false →
  ∀ attempts counter,
    1 ≤ counter →
    (∀ m, counter ≤ m ≤ 1000 →
          is_Some (Fs.nodeAt fs (generateFileName fullPath m))) →
    tryWriteFileFrom fullPath sourceCode attempts counter fs
    = (Err TooManyConflicts, fs).
Proof.
  intros Hne Hslash.
  induction attempts as [|attempts IH]; intros counter Hc Hbusy;
    rewrite tryWriteFileFrom_unfold;
    destruct (Nat.ltb_spec 1000 counter); try done.
  simpl.
  destruct (generateFileName_dirname fullPath counter Hne Hslash) as [Hd Hs].
  unfold Fs.writeFile_wx. rewrite Hs.
  destruct (Hbusy counter) as [x Hx]; [lia|]. rewrite Hx.
  destruct counter as [|counter]; [lia|]. apply IH; [lia|].
  intros m Hm. apply Hbusy. lia.
Qed.

Lemma nodeAt_File_nonempty (fs : Fs.state) (p c : string) :
  Fs.nodeAt fs p = Some (File c) → p ≠ "".
Proof. intros [_ Hb]%nodeAt_File ->. done. Qed.

(** A file whose path holds another content is saved under the first
    conflict name that is free. *)
Lemma writeSourceWithMerge_conflict_created (filePath c1 c2 outputRoot : string)
    (fs : Fs.state) (n : nat) :
  let fullPath := Path.join outputRoot filePath in
  Fs.nodeAt fs fullPath = Some (File c1) → c1 ≠ c2 →
  Path.endsWithSlash fullPath = false →
  Fs.resolveDir fs (Path.dirname fullPath) = Ok () →
  1 ≤ n ≤ 1000 →
  Fs.nodeAt fs (generateFileName fullPath n) = None →
  (∀ m, 1 ≤ m < n → is_Some (Fs.nodeAt fs (generateFileName fullPath m))) →
  writeSourceWithMerge filePath c2 outputRoot fs
  = (Ok (), <[generateFileName fullPath n := File c2]> fs).
Proof.
  intros fullPath Hnode Hdiff Hslash Hdir Hn Hfree Hbusy.
  rewrite writeSourceWithMerge_unfold. simpl. fold fullPath.
  rewrite (ensureDir_present _ _ Hdir), tryWriteFile_first.
  unfold Fs.writeFile_wx, Fs.readFile. rewrite Hslash, Hnode. simpl.
  rewrite Hnode. destruct (String.eqb_spec c1 c2) as [|_]; [done|].
  apply conflict_chain_complete; try done; try lia.
  by eapply nodeAt_File_nonempty.
Qed.

(** With the thousand conflict names taken the write fails, and changes
    nothing. *)
Lemma writeSourceWithMerge_too_many (filePath c1 c2 outputRoot : string)
    (fs : Fs.state) :
  let fullPath := Path.join outputRoot filePath in
  Fs.nodeAt fs fullPath = Some (File c1) → c1 ≠ c2 →
  Path.endsWithSlash fullPath = false →
  Fs.resolveDir fs (Path.dirname fullPath) = Ok () →
  (∀ m, 1 ≤ m ≤ 1000 → is_Some (Fs.nodeAt fs (generateFileName fullPath m))) →
  writeSourceWithMerge filePath c2 outputRoot fs = (Err TooManyConflicts, fs).
Proof.
  intros fullPath Hnode Hdiff Hslash Hdir Hbusy.
  rewrite writeSourceWithMerge_unfold. simpl. fold fullPath.
  rewrite (ensureDir_present _ _ Hdir), tryWriteFile_first.
  unfold Fs.writeFile_wx, Fs.readFile. rewrite Hslash, Hnode. simpl.
  rewrite Hnode. destruct (String.eqb_spec c1 c2) as [|_]; [done|].
  apply conflict_chain_exhausted; try done.
  by eapply nodeAt_File_nonempty.
Qed.

(** ** Writing a bundle *)

Lemma writeSources_cons (key content : string) (files : list (string * string))
    (outputRoot : string) (fs : Fs.state) :
  writeSources ((key, content) :: files) outputRoot fs =
  match writeSourceWithMerge key content outputRoot fs with
  | (Ok _, fs') => writeSources files outputRoot fs'
  | (Err e, fs') => (Err (WriteFailed e), fs')
  end.
Proof.
  unfold writeSources. simpl. unfold bind, liftWrite.
  by destruct (writeSourceWithMerge key content outputRoot fs) as [[[]|e] fs'].
Qed.

Lemma writeSources_app (files files' : list (string * string))
    (outputRoot : string) (fs : Fs.state) :
  writeSources (files ++ files') outputRoot fs =
  match writeSources files outputRoot fs with
  | (Ok _, fs') => writeSources files' outputRoot fs'
  | (Err e, fs') => (Err e, fs')
  end.
Proof.
  revert fs. induction files as [|[key content] files IH]; intros fs; [done|].
  rewrite <-app_comm_cons, !writeSources_cons.
  destruct (writeSourceWithMerge key content outputRoot fs) as [[[]|e] fs'];
    [apply IH|done].
Qed.

(** Whatever a run does, every path that held something holds it still. *)
Lemma writeSources_subseteq (files : list (string * string))
    (outputRoot : string) (fs fs' : Fs.state) (r : result MainError unit) :
  writeSources files outputRoot fs = (r, fs') → fs ⊆ fs'.
Proof.
  revert fs. induction files as [|[key content] files IH]; intros fs.
  - by intros [= _ <-].
  - rewrite writeSources_cons.
    destruct (writeSourceWithMerge key content outputRoot fs)
      as [r' fs''] eqn:Hwrite.
    apply writeSourceWithMerge_subseteq in Hwrite. destruct r' as [[]|e].
    + intros Hrest. etrans; [done|]. by eapply IH.
    + by intros [= _ <-].
Qed.

Lemma writeSources_ok (files : list (string * string)) (outputRoot : string)
    (fs fs' : Fs.state) :
  writeSources files outputRoot fs = (Ok (), fs') →
  ∀ write, write ∈ files →
    Path.endsWithSlash (targetOf outputRoot write) = false
    ∧ Fs.resolveDir fs' (Path.dirname (targetOf outputRoot write)) = Ok ().
Proof.
  revert fs. induction files as [|[key content] files IH]; intros fs Hrun write Hin.
  { by apply elem_of_nil in Hin. }
  rewrite writeSources_cons in Hrun.
  destruct (writeSourceWithMerge key content outputRoot fs)
    as [[[]|e] fs''] eqn:Hwrite; [|done].
  apply elem_of_cons in Hin as [->|Hin]; [|by eapply IH].
  apply writeSourceWithMerge_ok in Hwrite as [Hslash Hdir].
  split; [done|]. eapply walk_weaken; [|done].
  by eapply writeSources_subseteq.
Qed.

(** A run over files that are all in place changes nothing. *)
Lemma writeSources_identical (files : list (string * string))
    (outputRoot : string) (fs : Fs.state) :
  (∀ write, write ∈ files →
     Fs.nodeAt fs (targetOf outputRoot write) = Some (File write.2)
     ∧ Path.endsWithSlash (targetOf outputRoot write) = false
     ∧ Fs.resolveDir fs (Path.dirname (targetOf outputRoot write)) = Ok ()) →
  writeSources files outputRoot fs = (Ok (), fs).
Proof.
  induction files as [|[key content] files IH]; intros Hall; [done|].
  rewrite writeSources_cons.
  destruct (Hall (key, content)) as (Hnode & Hslash & Hdir); [left|].
  rewrite writeSourceWithMerge_identical by done.
  apply IH. intros write Hin. apply Hall. by right.
Qed.

(** A run into a destination that holds no file at the paths of the
    bundle, these being distinct, puts every file in place. *)
Lemma writeSources_fresh (files : list (string * string)) (outputRoot : string)
    (fs fs' : Fs.state) :
  NoDup (targetOf outputRoot <$> files) →
  (∀ write c, write ∈ files →
     Fs.nodeAt fs (targetOf outputRoot write) ≠ Some (File c)) →
  writeSources files outputRoot fs = (Ok (), fs') →
  ∀ write, write ∈ files →
    Fs.nodeAt fs' (targetOf outputRoot write) = Some (File write.2).
Proof.
  revert fs.
  induction files as [|[key content] files IH]; intros fs Hdup Hnofile Hrun write Hin.
  { by apply elem_of_nil in Hin. }
  rewrite writeSources_cons in Hrun.
  destruct (writeSourceWithMerge key content outputRoot fs)
    as [[[]|e] fs''] eqn:Hwrite; [|done].
  rewrite fmap_cons in Hdup. apply NoDup_cons in Hdup as [Hhead Hdup].
  apply writeSourceWithMerge_fresh in Hwrite as [Hplaced Hothers];
    [|intros c; apply (Hnofile (key, content) c); left].
  apply elem_of_cons in Hin as [->|Hin].
  - eapply nodeAt_weaken; [|done]. by eapply writeSources_subseteq.
  - apply (IH fs''); try done.
    intros write' c Hin' Hfile. apply (Hnofile write' c); [by right|].
    apply Hothers; [done|]. intros Heq. apply Hhead.
    apply list_elem_of_fmap. by exists write'.
Qed.

(** A file of the bundle whose path holds another content is saved under
    a conflict name that was free. *)
Lemma writeSources_conflict (files : list (string * string))
    (outputRoot key c1 c2 : string) (fs fs' : Fs.state) :
  let fullPath := Path.join outputRoot key in
  (key, c2) ∈ files →
  Fs.nodeAt fs fullPath = Some (File c1) → c1 ≠ c2 →
  writeSources files outputRoot fs = (Ok (), fs') →
  ∃ n, 1 ≤ n ≤ 1000
       ∧ Fs.nodeAt fs (generateFileName fullPath n) = None
       ∧ Fs.nodeAt fs' (generateFileName fullPath n) = Some (File c2)
       ∧ ∀ m, 1 ≤ m < n → is_Some (Fs.nodeAt fs' (generateFileName fullPath m)).
Proof.
  intros fullPath Hin Hnode Hdiff. revert fs Hnode.
  induction files as [|[key' content'] files IH]; intros fs Hnode Hrun.
  { by apply elem_of_nil in Hin. }
  rewrite writeSources_cons in Hrun.
  destruct (writeSourceWithMerge key' content' outputRoot fs)
    as [[[]|e] fs''] eqn:Hwrite; [|done].
  pose proof (writeSourceWithMerge_subseteq _ _ _ _ _ _ Hwrite) as Hsub.
  pose proof (writeSources_subseteq _ _ _ _ _ Hrun) as Hsub'.
  apply elem_of_cons in Hin as [[= <- <-]|Hin].
  - apply (writeSourceWithMerge_conflict key c1 c2) in Hwrite
      as (n & Hn & Hfree & Hsaved & Hbelow); [|done..].
    exists n. split; [done|]. split; [done|]. split.
    + by eapply nodeAt_weaken.
    + intros m Hm. destruct (Hbelow m Hm) as [x Hx]. exists x.
      by eapply nodeAt_weaken.
  - destruct (IH Hin fs'') as (n & Hn & Hfree & Hsaved & Hbelow);
      [by eapply nodeAt_weaken|done|].
    exists n. split; [done|]. split; [|done].
    destruct (Fs.nodeAt fs (generateFileName fullPath n)) as [x|] eqn:Hx; [|done].
    by rewrite (nodeAt_weaken _ _ _ _ Hsub Hx) in Hfree.
Qed.

Lemma materialize_merge (outputRoot : string) (bundle : SourceBundle)
    (writes : list (string * string)) (fs : Fs.state) :
  plannedWrites bundle = Some writes →
  materialize true outputRoot bundle fs =
  match writeSources writes outputRoot fs with
  | (Ok _, fs') => Exited 0 fs'
  | (Err _, fs') => Exited 1 fs'
  end.
Proof.
  unfold plannedWrites, materialize.
  destruct (objectEntries (sources bundle)) as [entries|]; [|done]. simpl.
  destruct (sourceFiles entries) as [files|]; [|done]. simpl.
  unfold writeBundle, writeRemappings, bind.
  destruct (jsonTruthy (remappings bundle)).
  - destruct (remappings bundle) as [[| | | |items|]|]; try done.
    intros [= <-]. rewrite writeSources_app.
    destruct (writeSources files outputRoot fs) as [[[]|e] fs']; [|done].
    rewrite writeSources_cons. unfold liftWrite.
    by destruct (writeSourceWithMerge _ _ outputRoot fs') as [[[]|e] fs''].
  - intros [= <-].
    by destruct (writeSources files outputRoot fs) as [[[]|e] fs'].
Qed.


Lemma materialize_merge_subseteq (outputRoot : string) (bundle : SourceBundle)
    (fs fs' : Fs.state) (code : Z) :
  materialize true outputRoot bundle fs = Exited code fs' → fs ⊆ fs'.
Proof.
  unfold materialize.
  destruct (objectEntries (sources bundle)) as [entries|]; [|by intros [= _ <-]].
  destruct (sourceFiles entries) as [files|]; [|done].
  unfold writeBundle, writeRemappings, bind.
  destruct (writeSources files outputRoot fs) as [r fs''] eqn:Hfiles.
  apply writeSources_subseteq in Hfiles.
  destruct r as [[]|e]; [|by intros [= _ <-]].
  destruct (jsonTruthy (remappings bundle)); [|by intros [= _ <-]].
  destruct (remappings bundle) as [[| | | |items|]|]; try by intros [= _ <-].
  unfold liftWrite.
  destruct (writeSourceWithMerge _ _ outputRoot fs'') as [r' fs3] eqn:Hrem.
  apply writeSourceWithMerge_subseteq in Hrem.
  destruct r'; intros [= _ <-]; by etrans.
Qed.

(** ** Interleaved writes *)

Lemma taskStep_subseteq (t t' : task) (fs fs' : Fs.state) :
  taskStep t fs = (t', fs') → fs ⊆ fs'.
Proof.
  destruct t as [p c|p c counter|p c|r]; simpl.
  - destruct (ensureDir (Path.dirname p) fs) as [r fs''] eqn:Hdir.
    apply ensureDir_cases in Hdir as (Hsub & _ & _).
    by destruct r; intros [= _ <-].
  - destruct (1000 <? counter)%nat; [by intros [= _ <-]|].
    destruct (Fs.writeFile_wx _ _ fs) as [r fs''] eqn:Hw.
    apply writeFile_wx_cases in Hw
      as [(-> & _ & Hfree & _ & ->)|[(-> & -> & _)|(e & -> & Hne & ->)]].
    + intros [= _ <-]. by apply insert_fresh_subseteq.
    + by destruct counter; intros [= _ <-].
    + destruct e; try done; by intros [= _ <-].
  - destruct (Fs.readFile p fs) as [existing|e]; [|by intros [= _ <-]].
    by destruct (String.eqb existing c); intros [= _ <-].
  - by intros [= _ <-].
Qed.

(** Whatever the order of the steps, every path that held something holds
    it still: nothing is overwritten and nothing is removed. *)
Lemma pool_subseteq (before after : Fs.state * list task) :
  rtc poolStep before after → before.1 ⊆ after.1.
Proof.
  induction 1 as [x|x y z Hstep _ IH]; [done|].
  etrans; [|exact IH]. destruct Hstep as [fs fs' pool i t t' _ Hstep].
  by eapply taskStep_subseteq.
Qed.







Lemma progress_weaken (fs0 fs fs' : Fs.state) (fullPath sourceCode : string)
    (t : task) :
  fs ⊆ fs' → progress fs0 fs fullPath sourceCode t →
  progress fs0 fs' fullPath sourceCode t.
Proof.
  intros Hsub [?|[?|[?|[?|[-> (n & Hn & Hfree & Hsaved)]]]]];
    unfold progress; eauto 10 using nodeAt_weaken.
Qed.

Lemma progress_step (fs0 fs fs' : Fs.state) (fullPath c1 c2 : string)
    (t t' : task) :
  fs0 ⊆ fs → Fs.nodeAt fs fullPath = Some (File c1) → c1 ≠ c2 →
  progress fs0 fs fullPath c2 t → taskStep t fs = (t', fs') →
  progress fs0 fs' fullPath c2 t'.
Proof.
  intros Hsub Hnode Hdiff Hprogress Hstep.
  destruct Hprogress as [->|[[counter ->]|[->|[[e ->]|[-> Hsaved]]]]];
    simpl in Hstep.
  - destruct (ensureDir _ fs) as [[[]|e] fs1]; injection Hstep as <- <-.
    + right. left. by exists 0.
    + right. right. right. left. by exists e.
  - destruct (Nat.ltb_spec 1000 counter) as [|Hle].
    { injection Hstep as <- <-. right. right. right. left. by eexists. }
    destruct (Fs.writeFile_wx _ _ fs) as [r fs1] eqn:Hw.
    apply writeFile_wx_cases in Hw
      as [(-> & _ & Hfree & _ & ->)|[(-> & -> & _)|(e & -> & Hne & ->)]].
    + injection Hstep as <- <-. right. right. right. right.
      split; [done|]. destruct counter as [|counter].
      { simpl in Hfree. congruence. }
      exists (S counter). split; [lia|]. split; [|by apply nodeAt_insert].
      destruct (Fs.nodeAt fs0 (generateFileName fullPath (S counter)))
        as [x|] eqn:Hx; [|done].
      by rewrite (nodeAt_weaken _ _ _ _ Hsub Hx) in Hfree.
    + destruct counter; injection Hstep as <- <-.
      * right. right. by left.
      * right. left. by eexists.
    + destruct e; try done; injection Hstep as <- <-;
        right; right; right; left; by eexists.
  - unfold Fs.readFile in Hstep. rewrite Hnode in Hstep.
    destruct (String.eqb_spec c1 c2) as [|_]; [done|].
    injection Hstep as <- <-. right. left. by exists 1.
  - injection Hstep as <- <-. right. right. right. left. by exists e.
  - injection Hstep as <- <-. right. right. right. right. done.
Qed.

(** Whatever the order of the steps, the task of a file whose path holds
    another content leaves the path as it is, and when it succeeds the
    file is under a conflict name that was free. *)
Lemma pool_conflict (before after : Fs.state * list task) (i : nat)
    (fullPath c1 c2 : string) :
  rtc poolStep before after →
  Fs.nodeAt before.1 fullPath = Some (File c1) → c1 ≠ c2 →
  (∃ t, before.2 !! i = Some t ∧ progress before.1 before.1 fullPath c2 t) →
  ∃ t, after.2 !! i = Some t ∧ progress before.1 after.1 fullPath c2 t.
Proof.
  intros Hrun Hnode Hdiff Hstart. revert after Hrun.
  apply rtc_ind_r; [exact Hstart|].
  intros x y Hreach Hstep (t & Ht & Hprogress).
  pose proof (pool_subseteq _ _ Hreach) as Hsub.
  destruct Hstep as [fs fs' pool j tj tj' Hj Hstep]. simpl in *.
  destruct (decide (j = i)) as [->|Hne].
  - exists tj'. split.
    + apply list_lookup_insert_eq. by eapply lookup_lt_Some.
    + simplify_eq. eapply progress_step; try done.
      by eapply nodeAt_weaken.
  - exists t. split; [by rewrite list_lookup_insert_ne|].
    eapply progress_weaken; [|done]. by eapply taskStep_subseteq.
Qed.

Lemma writeSources_rerun (writes : list (string * string)) (outputRoot : string)
    (fs0 fs1 : Fs.state) :
  writeSources writes outputRoot fs0 = (Ok (), fs1) →
  (∀ write, write ∈ writes →
     Fs.nodeAt fs1 (targetOf outputRoot write) = Some (File write.2)) →
  writeSources writes outputRoot fs1 = (Ok (), fs1)
  ∧ Forall (quiet fs1) (startTask outputRoot <$> writes).
Proof.
  intros Hrun Hplace.
  assert (∀ write, write ∈ writes →
            inPlace fs1 (targetOf outputRoot write) write.2) as Hall.
  { intros write Hin.
    destruct (writeSources_ok _ _ _ _ Hrun write Hin) as [Hslash Hdir].
    split; auto. }
  split.
  - apply writeSources_identical. intros write Hin. apply (Hall write Hin).
  - apply Forall_fmap, Forall_forall. intros write Hin. right.
    exists (targetOf outputRoot write), write.2. split; [by apply Hall|].
    by left.
Qed.



(** The first run leaves every file in place when the destination holds
    no file at the paths of the bundle and these are distinct; the second
    run then changes nothing. *)
Lemma merge_idempotent_fresh (outputRoot : string) (bundle : SourceBundle)
    (writes : list (string * string)) (fs0 fs1 : Fs.state) :
  plannedWrites bundle = Some writes →
  NoDup (targetOf outputRoot <$> writes) →
  (∀ write c, write ∈ writes →
     Fs.nodeAt fs0 (targetOf outputRoot write) ≠ Some (File c)) →
  materialize true outputRoot bundle fs0 = Exited 0 fs1 →
  materialize true outputRoot bundle fs1 = Exited 0 fs1.
Proof.
  intros Hplan Hdup Hnofile Hrun.
  rewrite (materialize_merge _ _ _ _ Hplan) in Hrun.
  rewrite (materialize_merge _ _ _ _ Hplan).
  destruct (writeSources writes outputRoot fs0) as [[[]|e] fs'] eqn:Hfirst;
    [|done].
  injection Hrun as <-.
  rewrite (proj1 (writeSources_rerun _ _ _ _ Hfirst
                    (writeSources_fresh _ _ _ _ Hdup Hnofile Hfirst))).
  done.
Qed.

(** C9, as amended. After a first bundle has been written under the Merge
    policy, let a path of the destination hold the content [c1], and let a
    second bundle have another content [c2] for that path. Then a run of
    the second bundle that succeeds overwrites nothing, neither did the
    first; the path still holds [c1]; and [c2] is held by a conflict name
    of the path, [.conflictN] before the extension, that was free, the
    names below it being taken. When the second bundle has this file only
    and [.conflict1] is free, the run succeeds and creates exactly that
    file. In whatever order the steps of the writes of the second bundle
    come, nothing is overwritten, the path keeps [c1], and the write of
    [c2], when it succeeds, has put it under a conflict name that was
    free. *)
Theorem conflict_safety (outputRoot : string) (first second : SourceBundle)
    (writes : list (string * string)) (key c1 c2 : string) (code : Z)
    (fs0 fs1 : Fs.state) :
  let fullPath := Path.join outputRoot key in
  materialize true outputRoot first fs0 = Exited code fs1 →
  plannedWrites second = Some writes → (key, c2) ∈ writes →
  Fs.nodeAt fs1 fullPath = Some (File c1) → c1 ≠ c2 →
  (∀ fs2,
      materialize true outputRoot second fs1 = Exited 0 fs2 →
      fs0 ⊆ fs1 ∧ fs1 ⊆ fs2
      ∧ Fs.nodeAt fs2 fullPath = Some (File c1)
      ∧ ∃ n, 1 ≤ n ≤ 1000
             ∧ Fs.nodeAt fs1 (generateFileName fullPath n) = None
             ∧ Fs.nodeAt fs2 (generateFileName fullPath n) = Some (File c2)
             ∧ ∀ m, 1 ≤ m < n →
                    is_Some (Fs.nodeAt fs2 (generateFileName fullPath m)))
  ∧ (writes = [(key, c2)] →
     Path.endsWithSlash fullPath = false →
     Fs.resolveDir fs1 (Path.dirname fullPath) = Ok () →
     Fs.nodeAt fs1 (generateFileName fullPath 1) = None →
     materialize true outputRoot second fs1
     = Exited 0 (<[generateFileName fullPath 1 := File c2]> fs1))
  ∧ (∀ i fs2 pool,
      writes !! i = Some (key, c2) →
      rtc poolStep (fs1, startTask outputRoot <$> writes) (fs2, pool) →
      fs1 ⊆ fs2
      ∧ Fs.nodeAt fs2 fullPath = Some (File c1)
      ∧ (pool !! i = Some (Finished (Ok ())) →
         ∃ n, 1 ≤ n ≤ 1000
              ∧ Fs.nodeAt fs1 (generateFileName fullPath n) = None
              ∧ Fs.nodeAt fs2 (generateFileName fullPath n)
                = Some (File c2))).
Proof.
  intros fullPath Hfirst Hplan Hin Hnode Hdiff. split; [|split].
  - intros fs2 Hsecond.
    pose proof (materialize_merge_subseteq _ _ _ _ _ Hfirst) as Hsub.
    pose proof (materialize_merge_subseteq _ _ _ _ _ Hsecond) as Hsub'.
    split; [done|]. split; [done|]. split; [by eapply nodeAt_weaken|].
    rewrite (materialize_merge _ _ _ _ Hplan) in Hsecond.
    destruct (writeSources writes outputRoot fs1) as [[[]|e] fs'] eqn:Hrun;
      [|done].
    injection Hsecond as <-.
    by eapply writeSources_conflict.
  - intros -> Hslash Hdir Hfree.
    rewrite (materialize_merge _ _ _ _ Hplan), writeSources_cons.
    rewrite (writeSourceWithMerge_conflict_created key c1 c2 outputRoot fs1 1);
      [done..| |done|]; [lia|intros m Hm; lia].
  - intros i fs2 pool Hi Hsteps.
    pose proof (pool_subseteq _ _ Hsteps) as Hsub. simpl in Hsub.
    split; [done|]. split; [by eapply nodeAt_weaken|].
    destruct (pool_conflict _ _ i fullPath c1 c2 Hsteps Hnode Hdiff)
      as (t & Ht & Hprogress).
    { exists (startTask outputRoot (key, c2)). split; [|by left].
      simpl. by rewrite list_lookup_fmap, Hi. }
    simpl in Ht, Hprogress. intros Hdone. rewrite Hdone in Ht.
    injection Ht as <-.
    destruct Hprogress as [?|[[? ?]|[?|[[? ?]|[_ Hsaved]]]]]; try done.
Qed.

(** ** The remappings file *)

Lemma arrayJoin_strings (sep : string) (lines : list string) :
  arrayJoin sep (JStr <$> lines) = JS.join sep lines.
Proof.
  unfold arrayJoin. f_equal. induction lines as [|line lines IH]; [done|].
  rewrite fmap_cons. simpl. by rewrite IH.
Qed.

(** A write to a path that holds nothing creates the file. *)
Lemma writeSourceWithMerge_creates (filePath sourceCode outputRoot : string)
    (fs fs' : Fs.state) :
  let fullPath := Path.join outputRoot filePath in
  Fs.mkdir_recursive (Path.dirname fullPath) fs = (Ok (), fs') →
  Fs.nodeAt fs' fullPath = None →
  Path.endsWithSlash fullPath = false →
  writeSourceWithMerge filePath sourceCode outputRoot fs
  = (Ok (), <[fullPath := File sourceCode]> fs').
Proof.
  intros fullPath Hmk Hfree Hslash. rewrite writeSourceWithMerge_unfold.
  simpl. fold fullPath. unfold ensureDir, lift. rewrite Hmk.
  rewrite tryWriteFile_first. unfold Fs.writeFile_wx.
  rewrite Hslash, Hfree. unfold Fs.resolveDir.
  by rewrite (mkdirs_walk _ _ _ Hmk).
Qed.

(** C6, as amended. What decides is whether the value of [remappings] is
    truthy, which an empty array is. With a falsy value, a missing one
    included, nothing is written. With an array, even an empty one, the
    remappings go through the same merging write as the sources:
    [remappings.txt] is created at the root of the destination when
    nothing is at its path, and its content is the items joined by
    newlines, which for strings are the strings themselves and nothing
    else. A truthy value that is not an array stops the run and nothing is
    written for it. *)
Theorem remappings_file (remappings : option JSON) (outputRoot : string)
    (fs : Fs.state) :
  let target := Path.join outputRoot "remappings.txt" in
  (jsonTruthy remappings = false →
   writeRemappings remappings outputRoot fs = (Ok (), fs))
  ∧ (∀ items fs',
      remappings = Some (JArr items) →
      Fs.mkdir_recursive (Path.dirname target) fs = (Ok (), fs') →
      Fs.nodeAt fs' target = None →
      Path.endsWithSlash target = false →
      writeRemappings remappings outputRoot fs
      = (Ok (), <[target := File (arrayJoin newline items)]> fs')
      ∧ ∀ lines, items = JStr <$> lines →
                 arrayJoin newline items = JS.join newline lines)
  ∧ (jsonTruthy remappings = true →
     (∀ items, remappings ≠ Some (JArr items)) →
     writeRemappings remappings outputRoot fs = (Err NotAnArray, fs)).
Proof.
  intros target. split; [|split].
  - intros Hfalsy. unfold writeRemappings. by rewrite Hfalsy.
  - intros items fs' -> Hmk Hfree Hslash. split.
    + unfold writeRemappings. simpl. unfold liftWrite.
      by rewrite (writeSourceWithMerge_creates _ _ _ fs fs').
    + intros lines ->. apply arrayJoin_strings.
  - intros Htruthy Hother. unfold writeRemappings. rewrite Htruthy.
    destruct remappings as [[| | | |items|]|]; try done.
    by destruct (Hother items).
Qed.

(** ** The Strict policy *)

Lemma readdir_entry (dir path : string) (fs : Fs.state) :
  Fs.resolveDir fs dir = Ok () →
  is_Some (fs !! path) →
  Path.dirname path = Fs.canonical dir → path ≠ Fs.canonical dir →
  ∃ name names, Fs.readdir dir fs = Ok (name :: names).
Proof.
  intros Hdir [n Hn] Hparent Hne. unfold Fs.readdir. rewrite Hdir.
  assert (path ∈ filter
            (λ p, bool_decide (Path.dirname p = Fs.canonical dir
                               ∧ p ≠ Fs.canonical dir))
            (map_to_list fs).*1) as Hin.
  { apply list_elem_of_filter. split.
    - by apply bool_decide_pack.
    - apply list_elem_of_fmap. exists (path, n). split; [done|].
      by apply elem_of_map_to_list. }
  destruct (filter _ _) as [|p ps]; [by apply elem_of_nil in Hin|].
  rewrite fmap_cons. eauto.
Qed.


Section MainFacts.
Context {platform : Platform}.
Variable domainMap : option (gmap string Z).

(** The same at the level of the command: without [-m] and [--merge], a
    destination with an entry ends [main] with code 1 and the file system
    as it was, after the fetch and before any write. *)
Lemma main_strict_refuses (args : list string) (parsed : Args)
    (bundle : SourceBundle) (root path : string) (entry : node)
    (fs : Fs.state) :
  args ≠ [] → "--help" ∉ args → "-h" ∉ args →
  parseArgs domainMap args = Ok parsed → merge parsed = false →
  fetchSource (contract parsed) (chain parsed) = Ok bundle →
  chooseOutputRoot (outputRoot parsed) (contractName bundle) (contract parsed)
  = Some root →
  Fs.resolveDir fs root = Ok () → fs !! path = Some entry →
  Path.dirname path = Fs.canonical root → path ≠ Fs.canonical root →
  main domainMap args fs = Exited 1 fs.
Proof.
  intros Hargs Hhelp Hh Hparse Hmerge Hfetch Hroot Hdir Hentry Hparent Hne.
  unfold main. destruct args as [|arg args]; [done|].
  rewrite !bool_decide_eq_false_2 by done. simpl.
  rewrite Hparse, Hfetch, Hroot, Hmerge.
  destruct (readdir_entry root path fs Hdir (mk_is_Some _ _ Hentry) Hparent Hne)
    as (name & names & Hread).
  unfold materialize, checkOutputDirectory. by rewrite Hread.
Qed.

End MainFacts.

(** ** The source fetcher *)

Section FetchFacts.
Context {platform : Platform}.


(** C5, as amended. A fetch that succeeds had a source that is not
    empty. When [JSON.parse] rejects it, or makes [null] of it, the
    bundle has exactly one file, named [{contractName}.{ext}], whose
    content is the source as it came. Otherwise the sources of the
    bundle are the [sources] member of the parsed value as it stands,
    which may be missing or empty, and its remappings are the
    [remappings] member of [settings]. *)
Theorem fetched_bundle (api : ApiResponse) (bundle : SourceBundle)
    (source name ext : option string) :
  selectFields api = (source, name, ext) →
  normalize api = Ok bundle →
  ∃ payload,
    source = Some payload ∧ payload ≠ ""
    ∧ (((JSON_parse payload = None ∨ JSON_parse payload = Some JNull)
        ∧ bundle = singleFile name ext payload
        ∧ plannedWrites bundle
          = Some [(JS.template name +:+ "." +:+ JS.template ext, payload)])
       ∨ (∃ parsed,
            JSON_parse payload = Some parsed ∧ parsed ≠ JNull
            ∧ contractName bundle = name
            ∧ sources bundle = get "sources" parsed
            ∧ remappings bundle
              = getOpt "remappings" (get "settings" parsed))).
Proof.
  intros Hfields. unfold normalize. rewrite Hfields.
  destruct source as [[|c s]|]; [done| |done].
  intros Hbundle. exists (String c s). split; [done|]. split; [done|].
  destruct (JSON_parse (String c s)) as [parsed|] eqn:Hparse.
  - destruct parsed as [|b|text|str|items|members];
      [left; injection Hbundle as <-; split; [by right|done]|..];
      right; injection Hbundle as <-; eexists; by repeat split.
  - left. injection Hbundle as <-. split; [by left|]. done.
Qed.

End FetchFacts.

(** * Further properties of the program *)

(** ** The command line *)

Lemma indexOf_None (x : string) (args : list string) :
  indexOf x args = None ↔ x ∉ args.
Proof.
  unfold indexOf. rewrite findIndex_None. split.
  - intros H Hin. specialize (H x Hin). by rewrite String.eqb_refl in H.
  - intros H y Hy. apply String.eqb_neq. by intros <-.
Qed.

Lemma indexOf_first (x : string) (pre post : list string) :
  x ∉ pre → indexOf x (pre ++ x :: post) = Some (length pre).
Proof.
  intros Hpre. unfold indexOf. induction pre as [|y pre IH]; simpl.
  - by rewrite String.eqb_refl.
  - apply not_elem_of_cons in Hpre as [Hy Hpre].
    apply String.eqb_neq in Hy. rewrite Hy. by rewrite IH.
Qed.

Lemma indexOf_lt (x : string) (args : list string) (i : nat) :
  indexOf x args = Some i → i < length args.
Proof.
  unfold indexOf. intros [(y & Hy & _) _]%findIndex_Some.
  by apply lookup_lt_Some in Hy.
Qed.

Lemma indexOf_app_other (x y : string) (args : list string) :
  x ≠ y → indexOf x (args ++ [y]) = indexOf x args.
Proof.
  intros Hxy. unfold indexOf. induction args as [|z args IH]; simpl.
  - apply String.eqb_neq in Hxy. by rewrite Hxy.
  - destruct (String.eqb x z); [done|]. by rewrite IH.
Qed.

Section ParseArgsFacts.
Context {platform : Platform}.
Variable domainMap : option (gmap string Z).

(** X1. A merge flag, in either spelling, can stand anywhere on the
    command line: with no other merge flag around, the arguments are
    parsed as they are without it, and only the merge field differs. This
    holds as well when the line without the flag is rejected. *)
Theorem merge_flag_anywhere (flag : string) (pre post : list string) :
  flag = "-m" ∨ flag = "--merge" →
  "-m" ∉ pre ++ post → "--merge" ∉ pre ++ post →
  (∀ parsed,
      parseArgs domainMap (pre ++ post) = Ok parsed →
      merge parsed = false
      ∧ parseArgs domainMap (pre ++ flag :: post)
        = Ok (mkArgs (chain parsed) (contract parsed) (outputRoot parsed) true))
  ∧ (∀ e, parseArgs domainMap (pre ++ post) = Err e →
          parseArgs domainMap (pre ++ flag :: post) = Err e).
Proof.
  intros Hflag Hm Hmerge.
  assert (maxIndex (indexOf "-m" (pre ++ flag :: post))
            (indexOf "--merge" (pre ++ flag :: post)) = Some (length pre))
    as Hindex.
  { apply not_elem_of_app in Hm as [Hm1 Hm2].
    apply not_elem_of_app in Hmerge as [Hmerge1 Hmerge2].
    destruct Hflag as [-> | ->].
    - rewrite (indexOf_first "-m") by done.
      replace (indexOf "--merge" (pre ++ "-m" :: post)) with (@None nat);
        [done|].
      symmetry. apply indexOf_None.
      rewrite not_elem_of_app, not_elem_of_cons. by repeat split.
    - rewrite (indexOf_first "--merge") by done.
      replace (indexOf "-m" (pre ++ "--merge" :: post)) with (@None nat);
        [done|].
      symmetry. apply indexOf_None.
      rewrite not_elem_of_app, not_elem_of_cons. by repeat split. }
  assert (delete (length pre) (pre ++ flag :: post) = pre ++ post) as Hdelete
    by by rewrite delete_middle.
  apply indexOf_None in Hm. apply indexOf_None in Hmerge.
  unfold parseArgs. rewrite Hindex, Hdelete, Hm, Hmerge. simpl.
  destruct (indexOf "--chain" (pre ++ post)) as [i|];
    match goal with
    | |- context [tryParseExplorerUrl domainMap ?c] =>
        destruct (tryParseExplorerUrl domainMap c) as [target|err]
    end; (split; [intros parsed Hp | intros e He]); by simplify_eq.
Qed.

(** X2. Only one merge flag is taken off the command line. With two of
    them in front, in any spelling, the one that stays is read as the
    contract, and what was meant as the contract is read as the
    directory. *)
Theorem merge_flag_twice (first second : string) (rest : list string) :
  first = "-m" ∨ first = "--merge" → second = "-m" ∨ second = "--merge" →
  "-m" ∉ rest → "--merge" ∉ rest → "--chain" ∉ rest →
  newURL first = None →
  parseArgs domainMap (first :: second :: rest)
  = Ok (mkArgs (ChainName "ethereum") (Some first) (rest !! 0) true).
Proof.
  intros Hfirst Hsecond Hm Hmerge Hchain Hurl.
  apply indexOf_None in Hm, Hmerge.
  assert (indexOf "--chain" (first :: rest) = None) as Hnone.
  { apply indexOf_None. rewrite not_elem_of_cons. split; [|done].
    by destruct Hfirst as [-> | ->]. }
  unfold indexOf in *. unfold parseArgs, indexOf.
  destruct Hfirst as [-> | ->], Hsecond as [-> | ->];
    cbn [JS.findIndex String.eqb Ascii.eqb Bool.eqb fmap option_fmap
           option_map] in *.
  all: rewrite ?Hm, ?Hmerge;
    cbn [maxIndex fmap option_fmap option_map max Nat.max delete list_delete].
  all: cbn [JS.findIndex String.eqb Ascii.eqb Bool.eqb fmap option_fmap
              option_map] in *.
  all: rewrite Hnone; unfold tryParseExplorerUrl;
    cbn [JS.template lookup list_lookup]; by rewrite Hurl.
Qed.

(** X3. The chain flag and its value can stand anywhere: the contract
    and the directory are the first two of the other arguments, and the
    chain is the value of the flag, whatever the contract resolves to. *)
Theorem chain_flag_anywhere (value : string) (pre post : list string) :
  value ≠ "" → value ≠ "-m" → value ≠ "--merge" →
  "--chain" ∉ pre → "-m" ∉ pre ++ post → "--merge" ∉ pre ++ post →
  parseArgs domainMap (pre ++ "--chain" :: value :: post)
  = match tryParseExplorerUrl domainMap ((pre ++ post) !! 0) with
    | Ok target =>
        Ok (mkArgs (ChainName value) (contractAddress target)
              ((pre ++ post) !! 1) false)
    | Err e => Err e
    end.
Proof.
  intros Hvalue Hvm Hvmerge Hchain Hm Hmerge.
  apply not_elem_of_app in Hm as [Hm1 Hm2].
  apply not_elem_of_app in Hmerge as [Hmerge1 Hmerge2].
  assert (indexOf "-m" (pre ++ "--chain" :: value :: post) = None) as Hnom.
  { apply indexOf_None.
    rewrite not_elem_of_app, !not_elem_of_cons. by repeat split. }
  assert (indexOf "--merge" (pre ++ "--chain" :: value :: post) = None)
    as Hnomerge.
  { apply indexOf_None.
    rewrite not_elem_of_app, !not_elem_of_cons. by repeat split. }
  unfold parseArgs. rewrite Hnom, Hnomerge. cbn [maxIndex].
  rewrite indexOf_first by done.
  rewrite take_app_length.
  replace (drop (length pre + 2) (pre ++ "--chain" :: value :: post))
    with post by (by rewrite drop_app_add).
  replace ((pre ++ "--chain" :: value :: post) !! (length pre + 1))
    with (Some value) by (by rewrite lookup_app_r, Nat.add_comm by lia;
                             rewrite Nat.add_sub).
  destruct (tryParseExplorerUrl domainMap ((pre ++ post) !! 0)) as [target|e];
    [|done].
  by destruct value.
Qed.

(** X4. A chain flag that ends the command line has no value and is
    dropped: the arguments are parsed as they are without it. *)
Theorem chain_flag_last (pre : list string) :
  "--chain" ∉ pre →
  parseArgs domainMap (pre ++ ["--chain"]) = parseArgs domainMap pre.
Proof.
  intros Hchain. unfold parseArgs.
  rewrite !indexOf_app_other by done.
  assert (∀ (args : list string), "--chain" ∉ args →
            match indexOf "--chain" (args ++ ["--chain"]) with
            | None =>
                (None, (args ++ ["--chain"]) !! 0, (args ++ ["--chain"]) !! 1)
            | Some i =>
                ((args ++ ["--chain"]) !! (i + 1),
                 (take i (args ++ ["--chain"])
                    ++ drop (i + 2) (args ++ ["--chain"])) !! 0,
                 (take i (args ++ ["--chain"])
                    ++ drop (i + 2) (args ++ ["--chain"])) !! 1)
            end
            = match indexOf "--chain" args with
              | None => (None, args !! 0, args !! 1)
              | Some i =>
                  (args !! (i + 1),
                   (take i args ++ drop (i + 2) args) !! 0,
                   (take i args ++ drop (i + 2) args) !! 1)
              end) as Hsame.
  { intros args Hargs. rewrite indexOf_first by done.
    rewrite (proj2 (indexOf_None _ _) Hargs).
    rewrite take_app_length.
    rewrite drop_ge by (rewrite length_app; simpl; lia).
    rewrite lookup_ge_None_2 by (rewrite length_app; simpl; lia).
    by rewrite app_nil_r. }
  destruct (maxIndex (indexOf "-m" pre) (indexOf "--merge" pre)) as [i|] eqn:Hi.
  - assert (i < length pre) as Hlt.
    { destruct (indexOf "-m" pre) as [a|] eqn:Ha,
        (indexOf "--merge" pre) as [b|] eqn:Hb; simplify_eq/=;
        try apply indexOf_lt in Ha; try apply indexOf_lt in Hb; lia. }
    replace (delete i (pre ++ ["--chain"])) with (delete i pre ++ ["--chain"]).
    2:{ rewrite !delete_take_drop, <- app_assoc. f_equal.
        - by rewrite take_app_le by lia.
        - by rewrite drop_app_le by lia. }
    rewrite Hsame; [done|].
    intros Hin. apply Hchain. by apply list_elem_of_delete_inv in Hin.
  - by rewrite Hsame.
Qed.

(** X5. Without any flag the first argument is the contract and the
    second the directory, and the chain follows from the contract: an
    argument that is not a URL is passed on as it is, on [ethereum]; a
    URL of a registered explorer gives the number of the registry; a URL
    of the aggregator gives the first segment of its path. *)
Theorem default_chain (token : string) (rest : list string) :
  "-m" ∉ token :: rest → "--merge" ∉ token :: rest →
  "--chain" ∉ token :: rest →
  (newURL token = None →
   parseArgs domainMap (token :: rest)
   = Ok (mkArgs (ChainName "ethereum") (Some token) (rest !! 0) false))
  ∧ (∀ u registry id address,
       newURL token = Some u → hostname u ≠ aggregatorHost →
       domainMap = Some registry → registry !! hostname u = Some id →
       id ≠ 0%Z → extractAddress (pathSegments u) = Some address →
       parseArgs domainMap (token :: rest)
       = Ok (mkArgs (ChainNum id) (Some address) (rest !! 0) false))
  ∧ (∀ u id address others,
       newURL token = Some u → hostname u = aggregatorHost →
       pathSegments u = id :: address :: others → isAddress address = true →
       parseArgs domainMap (token :: rest)
       = Ok (mkArgs (ChainName id) (Some address) (rest !! 0) false)).
Proof.
  intros Hm Hmerge Hchain.
  apply indexOf_None in Hm, Hmerge, Hchain.
  unfold parseArgs. rewrite Hm, Hmerge. cbn [maxIndex]. rewrite Hchain.
  cbn [lookup list_lookup].
  split; [|split].
  - intros Hurl. by rewrite resolve_not_url.
  - intros u registry id address Hurl Hhost -> Hid Hnz Haddress.
    rewrite (resolve_generic _ _ u) by done.
    unfold parseGeneric. rewrite Hid.
    apply Z.eqb_neq in Hnz. rewrite Hnz, Haddress. simpl. by rewrite Hnz.
  - intros u id address others Hurl Hhost Hsegments Haddress.
    rewrite (resolve_aggregator _ _ u) by done.
    rewrite Hsegments. simpl. rewrite Haddress. simpl.
    pose proof (pathSegments_nonempty u) as Hne. rewrite Hsegments in Hne.
    apply Forall_cons in Hne as [Hne _]. by destruct id.
Qed.

End ParseArgsFacts.

(** ** Explorers outside the registry *)

Section ResolverErrors.
Context {platform : Platform}.


End ResolverErrors.

(** ** The answer of the remote lookup *)

Lemma checkOutputDirectory_exit (outputRoot : string) (fs : Fs.state)
    (code : Z) :
  checkOutputDirectory outputRoot fs = CheckExit code → code = 1%Z.
Proof.
  unfold checkOutputDirectory.
  destruct (Fs.readdir outputRoot fs) as [files|[]]; try done.
  destruct (0 <? length files)%nat; [|done]. by intros [= <-].
Qed.


Section FetchProperties.
Context {platform : Platform}.

(** X7. Whether the answer gives a bundle is decided by the selected
    source alone: a source that is a string and not empty always gives
    one, be it JSON or not, and any other source is [No source found].
    When the answer names no proxy, the proxy fields play no part. *)
Theorem source_decides_fetch (api : ApiResponse) :
  let source := (selectFields api).1.1 in
  (JS.truthy source = true → is_ok (normalize api) = true)
  ∧ (JS.truthy source = false → normalize api = Err NoSourceFound)
  ∧ (JS.truthy (api_proxyAddress api) = false →
     ∀ api', JS.truthy (api_proxyAddress api') = false →
             api_result api' = api_result api →
             api_contractName api' = api_contractName api →
             api_ext api' = api_ext api →
             normalize api' = normalize api).
Proof.
  intros source. split; [|split].
  - unfold source, normalize. destruct (selectFields api) as [[src name] ext].
    simpl. destruct src as [[|c s]|]; [done| |done]. intros _.
    by destruct (JSON_parse (String c s)) as [[]|].
  - unfold source, normalize. destruct (selectFields api) as [[src name] ext].
    simpl. by destruct src as [[|c s]|].
  - intros Hplain api' Hplain' Hresult Hname Hext.
    unfold normalize, selectFields.
    by rewrite Hplain, Hplain', Hresult, Hname, Hext.
Qed.

(** X8. A source that is JSON, and not [null], but has no [sources]
    member (the text of a number, of a string, of an object of another
    kind) is fetched with success; the run then ends with code 1 under
    both policies, whatever the destination, and leaves the file system
    as it was. *)
Theorem bundle_without_sources (api : ApiResponse) (payload : string)
    (name ext : option string) (parsed : JSON) :
  selectFields api = (Some payload, name, ext) → payload ≠ "" →
  JSON_parse payload = Some parsed → parsed ≠ JNull →
  get "sources" parsed = None ∨ get "sources" parsed = Some JNull →
  ∃ bundle,
    normalize api = Ok bundle
    ∧ ∀ merge outputRoot fs,
        materialize merge outputRoot bundle fs = Exited 1 fs.
Proof.
  intros Hfields Hne Hparse Hnull Hsources.
  exists (mkBundle name (get "sources" parsed)
            (getOpt "remappings" (get "settings" parsed))).
  split.
  - unfold normalize. rewrite Hfields.
    destruct payload as [|c s]; [done|]. rewrite Hparse.
    by destruct parsed.
  - intros merge outputRoot fs. unfold materialize. simpl.
    assert (objectEntries (get "sources" parsed) = None) as ->
      by (by destruct Hsources as [-> | ->]).
    destruct merge; [done|].
    destruct (checkOutputDirectory outputRoot fs) as [|code|e] eqn:Hcheck;
      [done| |done].
    by apply checkOutputDirectory_exit in Hcheck as ->.
Qed.

(** X9. A source that is not JSON, or is the JSON text [null], is saved
    as it is: the bundle has the one file [{contractName}.{ext}], and its
    run under the Merge policy creates that file at the root of the
    destination with the source as content, and no [remappings.txt]. *)
Theorem flattened_source_file (api : ApiResponse) (payload outputRoot : string)
    (name ext : option string) (fs fs1 : Fs.state) :
  let target :=
    Path.join outputRoot (JS.template name +:+ "." +:+ JS.template ext) in
  selectFields api = (Some payload, name, ext) → payload ≠ "" →
  JSON_parse payload = None ∨ JSON_parse payload = Some JNull →
  Fs.mkdir_recursive (Path.dirname target) fs = (Ok (), fs1) →
  Fs.nodeAt fs1 target = None → Path.endsWithSlash target = false →
  normalize api = Ok (singleFile name ext payload)
  ∧ materialize true outputRoot (singleFile name ext payload) fs
    = Exited 0 (<[target := File payload]> fs1).
Proof.
  intros target Hfields Hne Hparse Hmk Hfree Hslash. split.
  - unfold normalize. rewrite Hfields.
    destruct payload as [|c s]; [done|].
    by destruct Hparse as [-> | ->].
  - unfold materialize, singleFile. simpl.
    unfold writeBundle, bind. rewrite writeSources_cons.
    by rewrite (writeSourceWithMerge_creates _ _ _ fs fs1).
Qed.

End FetchProperties.

(** ** Conflict names *)

Lemma takeWhile_app_all {A} (p : A → bool) (l1 l2 : list A) :
  Forall (λ x, p x = true) l1 →
  Path.takeWhile p (l1 ++ l2) = l1 ++ Path.takeWhile p l2.
Proof. induction 1 as [|x l1 Hx _ IH]; simpl; [done|]. by rewrite Hx, IH. Qed.

Lemma append_empty_r (s : string) : s +:+ "" = s.
Proof.
  induction s as [|c s IH]; [done|].
  change (String c (s +:+ "") = String c s). by rewrite IH.
Qed.

Lemma append_assoc (s1 s2 s3 : string) :
  (s1 +:+ s2) +:+ s3 = s1 +:+ s2 +:+ s3.
Proof.
  induction s1 as [|c s1 IH]; [done|].
  change (String c ((s1 +:+ s2) +:+ s3) = String c (s1 +:+ s2 +:+ s3)).
  by rewrite IH.
Qed.

Lemma chars_length_app (s1 s2 : string) :
  length (JS.chars (s1 +:+ s2)) = length (JS.chars s1) + length (JS.chars s2).
Proof. by rewrite chars_app, length_app. Qed.

(** The two parts of a path make up the path. *)
Lemma splitExtension_app (fullPath : string) :
  fullPath = (splitExtension fullPath).1 +:+ (splitExtension fullPath).2.
Proof.
  destruct (splitExtension_cases fullPath)
    as [->|(before & tail & _ & _ & Hchars & ->)]; simpl.
  - by rewrite append_empty_r.
  - transitivity (JS.of_chars (JS.chars fullPath));
      [by rewrite of_chars_chars|].
    rewrite Hchars, <-(of_chars_chars (JS.of_chars before +:+ _)).
    rewrite chars_app, !chars_of_chars.
    change (JS.chars (String "." (JS.of_chars tail)))
      with ("."%char :: JS.chars (JS.of_chars tail)).
    by rewrite chars_of_chars.
Qed.

Lemma plainName_Forall (s : string) :
  plainName s = true →
  Forall (λ c, negb (Path.isSlash c || Ascii.eqb c "."%char) = true)
         (JS.chars s).
Proof.
  unfold plainName. rewrite forallb_forall, Forall_forall.
  intros H c Hc. apply H. by apply list_elem_of_In.
Qed.

Lemma splitExtension_extension (before ext : string) :
  ext ≠ "" → plainName ext = true →
  splitExtension (before +:+ "." +:+ ext) = (before, "." +:+ ext).
Proof.
  intros Hne Hplain%plainName_Forall.
  unfold splitExtension.
  rewrite !chars_app. change (JS.chars ".") with ["."%char].
  rewrite rev_app_distr, rev_app_distr. simpl.
  rewrite <-app_assoc. simpl.
  set (keep := λ c, negb (Path.isSlash c || Ascii.eqb c ".")).
  assert (Forall (λ c, keep c = true) (rev (JS.chars ext))) as Hkeep
    by by apply Forall_rev.
  rewrite takeWhile_app_all, dropWhile_app_all by done.
  simpl. rewrite app_nil_r.
  destruct (rev (JS.chars ext)) as [|c l] eqn:Hrev.
  { apply (f_equal (@rev ascii)) in Hrev. rewrite rev_involutive in Hrev.
    simpl in Hrev. by destruct ext. }
  change (rev l ++ [c]) with (rev (c :: l)).
  by rewrite <-Hrev, !rev_involutive, !of_chars_chars.
Qed.

Lemma splitExtension_none (dir name : string) :
  dir = "" ∨ Path.endsWithSlash dir = true → plainName name = true →
  splitExtension (dir +:+ name) = (dir +:+ name, "").
Proof.
  intros Hdir Hplain%plainName_Forall.
  unfold splitExtension.
  rewrite chars_app, rev_app_distr.
  set (keep := λ c, negb (Path.isSlash c || Ascii.eqb c ".")).
  assert (Forall (λ c, keep c = true) (rev (JS.chars name))) as Hkeep
    by by apply Forall_rev.
  rewrite takeWhile_app_all, dropWhile_app_all by done.
  destruct Hdir as [-> | Hslash].
  - simpl. rewrite app_nil_r. by destruct (rev (JS.chars name)).
  - unfold Path.endsWithSlash in Hslash.
    destruct (rev (JS.chars dir)) as [|c l]; [done|].
    simpl. assert (keep c = false) as -> by (unfold keep; by rewrite Hslash).
    destruct (rev (JS.chars name) ++ []); [done|].
    unfold Path.isSlash in Hslash. by apply Ascii.eqb_eq in Hslash as ->.
Qed.

(** X10. Where the conflict suffix goes. When the path ends in a dot
    followed by one character or more, none of them a slash or a dot,
    that ending is the extension and the suffix comes before it,
    whatever stands before the dot. When the last component of the path
    has no dot the suffix is appended. *)
Theorem conflict_name_placement (n : nat) :
  1 ≤ n →
  (∀ before ext,
      ext ≠ "" → plainName ext = true →
      generateFileName (before +:+ "." +:+ ext) n
      = before +:+ ".conflict" +:+ pretty n +:+ "." +:+ ext)
  ∧ (∀ dir name,
       dir = "" ∨ Path.endsWithSlash dir = true → plainName name = true →
       generateFileName (dir +:+ name) n
       = dir +:+ name +:+ ".conflict" +:+ pretty n).
Proof.
  intros Hn. destruct n as [|n]; [lia|]. split.
  - intros before ext Hne Hplain. unfold generateFileName.
    by rewrite splitExtension_extension.
  - intros dir name Hdir Hplain. unfold generateFileName.
    rewrite splitExtension_none by done.
    by rewrite append_empty_r, append_assoc.
Qed.

(** X11. The names that the counters give a path are pairwise distinct:
    no conflict name is the path itself, and no two counters share a
    conflict name. *)
Theorem conflict_names_distinct (fullPath : string) (n m : nat) :
  n ≠ m → generateFileName fullPath n ≠ generateFileName fullPath m.
Proof.
  assert (∀ k, generateFileName fullPath (S k) ≠ fullPath) as Hzero.
  { intros k. unfold generateFileName.
    pose proof (splitExtension_app fullPath) as Hfull.
    destruct (splitExtension fullPath) as [base ext]. simpl in Hfull.
    intros Heq. rewrite Hfull in Heq.
    apply String.app_inj in Heq.
    apply (f_equal (λ s, length (JS.chars s))) in Heq.
    rewrite !chars_length_app in Heq.
    change (length (JS.chars ".conflict")) with 9 in Heq. lia. }
  intros Hnm Heq. destruct n as [|n], m as [|m]; [done| | |].
  - by apply (Hzero m).
  - by apply (Hzero n).
  - apply Hnm. unfold generateFileName in Heq.
    destruct (splitExtension fullPath) as [base ext].
    apply String.app_inj in Heq.
    apply (String.app_inj ".conflict") in Heq.
    apply (f_equal JS.chars) in Heq. rewrite !chars_app in Heq.
    apply app_inv_tail in Heq.
    apply (f_equal JS.of_chars) in Heq. rewrite !of_chars_chars in Heq.
    by apply pretty_nat_inj in Heq.
Qed.

(** ** What a write leaves behind *)

Lemma tryWriteFileFrom_failure (fullPath sourceCode : string)
    (attempts counter : nat) (fs fs' : Fs.state) (e : WriteError) :
  tryWriteFileFrom fullPath sourceCode attempts counter fs = (Err e, fs') →
  fs' = fs.
Proof.
  revert counter.
  induction attempts as [|attempts IH]; intros counter;
    rewrite tryWriteFileFrom_unfold;
    destruct (1000 <? counter)%nat; try by intros [= _ <-].
  simpl. destruct (Fs.writeFile_wx _ _ fs) as [r fs''] eqn:Hw.
  apply writeFile_wx_cases in Hw
    as [(-> & _ & Hfree & _ & ->)|[(-> & -> & _)|(e' & -> & Hne & ->)]].
  - done.
  - destruct counter as [|counter].
    + destruct (Fs.readFile _ fs); [|by intros [= _ <-]].
      destruct (String.eqb _ _); [done|]. apply IH.
    + apply IH.
  - destruct e'; try done; by intros [= _ <-].
Qed.

(** The three ways a write at a path ends: with an error and nothing
    changed, with the content found in place, or with one file
    created. *)
Lemma tryWriteFile_outcome (fullPath sourceCode : string) (fs fs' : Fs.state)
    (r : result WriteError unit) :
  tryWriteFile fullPath sourceCode fs = (r, fs') →
  (∃ e, r = Err e ∧ fs' = fs)
  ∨ (r = Ok () ∧ fs' = fs ∧ Fs.nodeAt fs fullPath = Some (File sourceCode))
  ∨ (r = Ok ()
     ∧ ∃ n, n ≤ 1000
            ∧ Fs.nodeAt fs (generateFileName fullPath n) = None
            ∧ fs' = <[generateFileName fullPath n := File sourceCode]> fs).
Proof.
  destruct r as [[]|e].
  2:{ intros Hrun. left. exists e. split; [done|].
      by apply tryWriteFileFrom_failure in Hrun. }
  intros Hrun. right. revert Hrun. rewrite tryWriteFile_first.
  destruct (Fs.writeFile_wx _ _ fs) as [r fs''] eqn:Hw.
  apply writeFile_wx_cases in Hw
    as [(-> & _ & Hfree & _ & ->)|[(-> & -> & _ & _)|(e & -> & Hne & ->)]].
  - intros [= <-]. right. split; [done|]. exists 0. split; [lia|]. done.
  - unfold Fs.readFile.
    destruct (Fs.nodeAt fs fullPath) as [[existing|]|] eqn:Hnode; try done.
    destruct (String.eqb_spec existing sourceCode) as [->|_].
    + intros [= <-]. by left.
    + intros (n & Hn & Hfree & -> & _)%conflict_chain; [|lia].
      right. split; [done|]. exists n. split; [lia|]. done.
  - by destruct e.
Qed.

(** X12. A write creates one file at most. Either the files after it
    are the files before it, which is the case whenever it fails, or it
    has succeeded and there is one file more: it holds the source, and
    its path is the target or one of its thousand conflict names, free
    before. Every other file is as it was. *)
Theorem write_footprint (filePath sourceCode outputRoot : string)
    (fs fs' : Fs.state) (r : result WriteError unit) :
  writeSourceWithMerge filePath sourceCode outputRoot fs = (r, fs') →
  let fullPath := Path.join outputRoot filePath in
  fs ⊆ fs'
  ∧ ((∀ p c, Fs.nodeAt fs' p = Some (File c) ↔ Fs.nodeAt fs p = Some (File c))
     ∨ (r = Ok ()
        ∧ ∃ n, n ≤ 1000
               ∧ Fs.nodeAt fs (generateFileName fullPath n) = None
               ∧ ∀ p c, Fs.nodeAt fs' p = Some (File c) ↔
                        Fs.nodeAt fs p = Some (File c)
                        ∨ (p = generateFileName fullPath n ∧ c = sourceCode))).
Proof.
  intros Hrun fullPath. split; [by eapply writeSourceWithMerge_subseteq|].
  revert Hrun. rewrite writeSourceWithMerge_unfold. fold fullPath. simpl.
  destruct (ensureDir (Path.dirname fullPath) fs) as [[[]|e] fs1] eqn:Hdir.
  2:{ intros [= <- <-]. left. intros p c.
      apply ensureDir_cases in Hdir as (Hsub & _ & Hfiles).
      split; [apply Hfiles|by apply nodeAt_weaken]. }
  apply ensureDir_cases in Hdir as (Hsub & _ & Hfiles).
  assert (∀ p c, Fs.nodeAt fs1 p = Some (File c)
                 ↔ Fs.nodeAt fs p = Some (File c)) as Hsame.
  { intros p c. split; [apply Hfiles|by apply nodeAt_weaken]. }
  intros [(e & -> & ->)|[(-> & -> & _)|(-> & n & Hn & Hfree & ->)]]
    %tryWriteFile_outcome.
  - by left.
  - by left.
  - right. split; [done|]. exists n. split; [done|]. split.
    { destruct (Fs.nodeAt fs (generateFileName fullPath n)) as [x|] eqn:Hx;
        [|done].
      apply (nodeAt_weaken _ fs1) in Hx; [congruence|done]. }
    intros p c. destruct (decide (p = generateFileName fullPath n)) as [->|Hp].
    + rewrite nodeAt_insert by done. split.
      * intros [= <-]. by right.
      * intros [Hold|[_ ->]]; [|done].
        apply Hsame in Hold. congruence.
    + rewrite nodeAt_insert_ne by done. rewrite Hsame. split; [by left|].
      by intros [?|[? _]].
Qed.

(** Among the counters from 1 to a bound, there is a least one that a
    decidable property fails for, or the property holds for all. *)
Lemma least_counter (P : nat → Prop) `{!∀ n, Decision (P n)} (bound : nat) :
  (∃ n, 1 ≤ n ≤ bound ∧ ¬ P n ∧ ∀ m, 1 ≤ m < n → P m)
  ∨ (∀ m, 1 ≤ m ≤ bound → P m).
Proof.
  induction bound as [|bound [(n & Hn & Hfree & Hbelow)|Hall]].
  - right. intros m Hm. lia.
  - left. exists n. split; [lia|]. done.
  - destruct (decide (P (S bound))) as [Hlast|Hlast].
    + right. intros m Hm. destruct (decide (m = S bound)) as [->|]; [done|].
      apply Hall. lia.
    + left. exists (S bound). split; [lia|]. split; [done|].
      intros m Hm. apply Hall. lia.
Qed.

(** X13. The write of a content to a path that holds another content
    ends in one of two ways, and which one is decided by the conflict
    names that are taken. Either a name among the thousand is free: the
    content is stored under the least one, and nothing else changes. Or
    all the thousand are taken: the write fails with [Too many
    conflicts], and nothing changes. *)
Theorem conflict_limit (filePath c1 c2 outputRoot : string) (fs : Fs.state) :
  let fullPath := Path.join outputRoot filePath in
  let taken := λ m, is_Some (Fs.nodeAt fs (generateFileName fullPath m)) in
  Fs.nodeAt fs fullPath = Some (File c1) → c1 ≠ c2 →
  Path.endsWithSlash fullPath = false →
  Fs.resolveDir fs (Path.dirname fullPath) = Ok () →
  (∃ n, 1 ≤ n ≤ 1000 ∧ ¬ taken n ∧ (∀ m, 1 ≤ m < n → taken m)
        ∧ writeSourceWithMerge filePath c2 outputRoot fs
          = (Ok (), <[generateFileName fullPath n := File c2]> fs))
  ∨ ((∀ m, 1 ≤ m ≤ 1000 → taken m)
     ∧ writeSourceWithMerge filePath c2 outputRoot fs
       = (Err TooManyConflicts, fs)).
Proof.
  intros fullPath taken Hnode Hdiff Hslash Hparent.
  destruct (least_counter taken 1000) as [(n & Hn & Hfree & Hbelow)|Hall].
  - left. exists n. split; [exact Hn|]. split; [exact Hfree|].
    split; [exact Hbelow|].
    apply (writeSourceWithMerge_conflict_created _ c1 c2 outputRoot fs n
             Hnode Hdiff Hslash Hparent Hn).
    + apply eq_None_not_Some. exact Hfree.
    + exact Hbelow.
  - right. split; [done|].
    exact (writeSourceWithMerge_too_many _ c1 c2 outputRoot fs
             Hnode Hdiff Hslash Hparent Hall).
Qed.

(** X14. A key that names a directory cannot be written. When the
    target is a directory that exists, the first attempt finds the path
    taken and the comparison of the contents fails on reading it: the
    write fails with [EISDIR] and nothing changes. When the target ends
    in a slash, the write fails with [EISDIR] once its directory is
    there. *)
Theorem directory_at_target (filePath sourceCode outputRoot : string)
    (fs : Fs.state) :
  let fullPath := Path.join outputRoot filePath in
  (Fs.nodeAt fs fullPath = Some Dir → Path.endsWithSlash fullPath = false →
   Fs.resolveDir fs (Path.dirname fullPath) = Ok () →
   writeSourceWithMerge filePath sourceCode outputRoot fs
   = (Err (FsError EISDIR), fs))
  ∧ (Path.endsWithSlash fullPath = true →
     ∀ fs1, ensureDir (Path.dirname fullPath) fs = (Ok (), fs1) →
     writeSourceWithMerge filePath sourceCode outputRoot fs
     = (Err (FsError EISDIR), fs1)).
Proof.
  intros fullPath. split.
  - intros Hdir Hslash Hparent. rewrite writeSourceWithMerge_unfold.
    simpl. fold fullPath. rewrite ensureDir_present by done.
    rewrite tryWriteFile_first. unfold Fs.writeFile_wx, Fs.readFile.
    by rewrite Hslash, Hdir, Hdir.
  - intros Hslash fs1 Hparent. rewrite writeSourceWithMerge_unfold.
    simpl. fold fullPath. rewrite Hparent.
    rewrite tryWriteFile_first. unfold Fs.writeFile_wx.
    by rewrite Hslash.
Qed.

Lemma slashFree_Forall (s : string) :
  slashFree s = true → Forall notSlash (JS.chars s).
Proof.
  induction s as [|c s IH]; simpl; [constructor|].
  intros [Hc Hs]%andb_prop. constructor; [|by apply IH].
  unfold notSlash. by destruct (Path.isSlash c).
Qed.

Lemma segmentName_cases (s : string) :
  segmentName s = true →
  slashFree s = true ∧ s ≠ "" ∧ s ≠ "." ∧ s ≠ "..".
Proof.
  unfold segmentName, Fs.builtin. intros [Hfree Hplain]%andb_prop.
  split; [done|]. rewrite split_slashFree in Hplain by done.
  simpl in Hplain. rewrite andb_true_r in Hplain.
  apply negb_true_iff, bool_decide_eq_false in Hplain.
  repeat split; intros ->; apply Hplain; auto.
Qed.

Lemma dirname_segment (name : string) :
  slashFree name = true → name ≠ "" → Path.dirname name = ".".
Proof.
  intros Hfree Hne.
  pose proof (dirname_last_component [] (JS.chars name) ["a"%char]) as Hdir.
  simpl in Hdir. rewrite of_chars_chars in Hdir. apply Hdir.
  - by destruct name.
  - done.
  - by apply slashFree_Forall.
  - by repeat constructor.
Qed.

(** [join] resolves a leading [..] of the key against the destination. *)
Lemma join_parent (root name : string) :
  segmentName root = true → segmentName name = true →
  Path.join root ("../" +:+ name) = name.
Proof.
  intros (Hroot & Hr1 & Hr2 & Hr3)%segmentName_cases
         (Hname & Hn1 & Hn2 & Hn3)%segmentName_cases.
  unfold Path.join. destruct root as [|r root]; [done|].
  change ("../" +:+ name) with (String "." (String "." (String "/" name))).
  cbv iota beta.
  set (path := String r root +:+ "/"
                 +:+ String "." (String "." (String "/" name))).
  assert (JS.split "/" path = [String r root; ".."; name]) as Hsplit.
  { unfold path.
    change (String r root +:+ "/" +:+ String "." (String "." (String "/" name)))
      with (String r root +:+ String "/" (".." +:+ String "/" name)).
    rewrite split_app_slash by done.
    rewrite split_app_slash by done.
    by rewrite split_slashFree. }
  assert (Path.startsWithSlash path = false) as Habs.
  { unfold path. simpl in Hroot. simpl.
    apply andb_prop in Hroot as [Hr _]. by apply negb_true_iff in Hr. }
  assert (Path.endsWithSlash path = false) as Hend.
  { rewrite <-(of_chars_chars path). unfold path.
    rewrite chars_app.
    change (JS.chars ("/" +:+ String "." (String "." (String "/" name))))
      with ("/"%char :: "."%char :: "."%char :: "/"%char :: JS.chars name).
    replace (JS.chars (String r root)
               ++ "/"%char :: "."%char :: "."%char :: "/"%char :: JS.chars name)
      with ((JS.chars (String r root)
               ++ ["/"%char; "."%char; "."%char; "/"%char])
              ++ JS.chars name) by (by rewrite <-app_assoc).
    apply endsWithSlash_last_component; [by destruct name|].
    by apply slashFree_Forall. }
  unfold Path.normalize.
  assert (path = String r (root +:+ "/"
                             +:+ String "." (String "." (String "/" name))))
    as Hpath by done.
  rewrite Hpath at 1. rewrite Habs, Hend, Hsplit. simpl negb.
  cbn [Path.normalizeSegments].
  rewrite (decide_False (P := String r root = "" ∨ String r root = "."))
    by (by intros [?|?]).
  rewrite (decide_False (P := String r root = "..")) by done.
  rewrite (decide_False (P := ".." = "" ∨ ".." = ".")) by (by intros [?|?]).
  rewrite (decide_True (P := ".." = "..")) by done.
  rewrite (decide_False (P := String r root = "..")) by done.
  rewrite (decide_False (P := name = "" ∨ name = ".")) by (by intros [?|?]).
  rewrite (decide_False (P := name = "..")) by done.
  simpl. by destruct name.
Qed.

(** X15. The keys of a bundle are not held inside the destination. With
    a destination of one segment, the key [../name] is joined to [name]
    itself: the file is created beside the destination, in the working
    directory, when nothing is at that path. *)
Theorem parent_key_escapes (root name sourceCode : string) (fs : Fs.state) :
  segmentName root = true → segmentName name = true →
  Fs.nodeAt fs name = None →
  Path.join root ("../" +:+ name) = name
  ∧ writeSourceWithMerge ("../" +:+ name) sourceCode root fs
    = (Ok (), <[name := File sourceCode]> fs).
Proof.
  intros Hroot Hname Hfree.
  pose proof (join_parent root name Hroot Hname) as Hjoin.
  split; [done|].
  apply segmentName_cases in Hname as (Hslash & Hne & _).
  pose proof (writeSourceWithMerge_creates ("../" +:+ name) sourceCode root
                fs fs) as Hcreate.
  simpl in Hcreate. rewrite Hjoin in Hcreate. apply Hcreate.
  - by rewrite dirname_segment.
  - done.
  - rewrite <-(of_chars_chars name).
    apply (endsWithSlash_last_component []); [by destruct name|].
    by apply slashFree_Forall.
Qed.

(** ** What a run leaves behind *)






(** ** The Strict policy, the other way round *)



(** ** The command as a whole *)


Section MainProperties.
Context {platform : Platform}.
Variable domainMap : option (gmap string Z).


End MainProperties.

(** ** The registry generator *)

Section GeneratorFacts.
Context {platform : Platform}.









End GeneratorFacts.

(** ** Examples *)

(** C1. The usage text and the specification have the [--chain] flag
    ignored when the contract is an explorer URL. The program gives the
    flag the precedence: with [--chain polygon] and a URL of the explorer
    of chain 1, the chain of the fetch is [polygon]. *)
Theorem chain_flag_overrides_url :
  parseArgs (platform := Example.node) Sample.chains
    ["--chain"; "polygon"; Example.explorerUrl]
  = Ok (mkArgs (ChainName "polygon") (Some Example.address) None false)
  ∧ tryParseExplorerUrl (platform := Example.node) Sample.chains
      (Some Example.explorerUrl)
    = Ok (mkTarget (Some Example.address) (Some (ChainNum 1)))
  ∧ srcapi (ChainName "polygon") (Some Example.address)
    = "https://vscode.blockscan.com/srcapi/polygon/" +:+ Example.address.
Proof. by vm_compute. Qed.



(** The three cases of the generic rule, on one registered host. *)
Lemma generic_resolution_witness :
  tryParseExplorerUrl (platform := Example.node) Sample.chains
    (Some Example.explorerUrl)
  = Ok (mkTarget (Some Example.address) (Some (ChainNum 1)))
  ∧ tryParseExplorerUrl (platform := Example.node) Sample.chains
      (Some Example.markerLastUrl)
    = Ok (mkTarget (Some Example.address) (Some (ChainNum 1)))
  ∧ tryParseExplorerUrl (platform := Example.node) Sample.chains
      (Some "https://etherscan.io/blocks")
    = Err AddressNotFound.
Proof.
  split; [|split].
  - refine (proj1 (generic_resolution (platform := Example.node) Sample.chains
                     Sample.registry Example.explorerUrl
                     (mkURL "etherscan.io" ("/address/" +:+ Example.address)) 1
                     eq_refl eq_refl _ eq_refl _)
              0 Example.address _ eq_refl); [done|done|].
    split; [reflexivity|constructor].
  - refine (proj1 (proj2 (generic_resolution (platform := Example.node) Sample.chains
                     Sample.registry Example.markerLastUrl
                     (mkURL "etherscan.io" ("/" +:+ Example.address +:+ "/token")) 1
                     eq_refl eq_refl _ eq_refl _))
              Example.address _ _); [done|done| |].
    + right. exists 1. split; [|reflexivity].
      split; [reflexivity|]. by repeat constructor.
    + exists [], ["token"]. split; [reflexivity|]. split; [reflexivity|constructor].
  - refine (proj2 (proj2 (generic_resolution (platform := Example.node) Sample.chains
                     Sample.registry "https://etherscan.io/blocks"
                     (mkURL "etherscan.io" "/blocks") 1
                     eq_refl eq_refl _ eq_refl _)) _ _); [done|done| |].
    + left. by repeat constructor.
    + by repeat constructor.
Defined.

(** C3 as stated fails: the path has a marker, nothing follows it, and
    the resolution succeeds through the scan, where the extraction as
    specified finds nothing. *)
Lemma marker_last_falls_back :
  pathSegments <$> newURL (Platform := Example.node) Example.markerLastUrl
  = Some [Example.address; "token"]
  ∧ isMarker "token" = true
  ∧ extractAddress_as_specified [Example.address; "token"] = None
  ∧ tryParseExplorerUrl (platform := Example.node) Sample.chains
      (Some Example.markerLastUrl)
    = Ok (mkTarget (Some Example.address) (Some (ChainNum 1))).
Proof. by vm_compute. Qed.

(** The aggregator rule with a chain name, and its two failures. *)
Lemma aggregator_resolution_witness :
  tryParseExplorerUrl (platform := Example.node) None (Some Example.blockscanUrl)
  = Ok (mkTarget (Some Example.address) (Some (ChainName "mantle")))
  ∧ tryParseExplorerUrl (platform := Example.node) None
      (Some "https://vscode.blockscan.com/5000")
    = Err InvalidBlockscanUrl
  ∧ tryParseExplorerUrl (platform := Example.node) None
      (Some "https://vscode.blockscan.com/5000/0x1234")
    = Err InvalidBlockscanUrl.
Proof.
  split; [|split].
  - refine (proj1 (aggregator_resolution (platform := Example.node) None
                     Example.blockscanUrl
                     (mkURL "vscode.blockscan.com" ("/mantle/" +:+ Example.address))
                     eq_refl eq_refl)
              "mantle" Example.address eq_refl _ eq_refl eq_refl).
    done.
  - refine (proj1 (proj2 (proj2 (aggregator_resolution (platform := Example.node)
                     None "https://vscode.blockscan.com/5000"
                     (mkURL "vscode.blockscan.com" "/5000") eq_refl eq_refl))) _).
    simpl. lia.
  - exact (proj2 (proj2 (proj2 (aggregator_resolution (platform := Example.node)
                     None "https://vscode.blockscan.com/5000/0x1234"
                     (mkURL "vscode.blockscan.com" "/5000/0x1234") eq_refl eq_refl)))
             "0x1234" eq_refl eq_refl).
Defined.

(** A source that is not JSON becomes the single file [Token.sol]. *)
Lemma fetched_bundle_witness :
  normalize (platform := Example.node) Example.plainSource
  = Ok (singleFile (Some "Token") (Some "sol") "contract Token {}")
  ∧ plannedWrites (singleFile (Some "Token") (Some "sol") "contract Token {}")
    = Some [("Token.sol", "contract Token {}")].
Proof.
  split; [reflexivity|].
  destruct (fetched_bundle (platform := Example.node) Example.plainSource
              (singleFile (Some "Token") (Some "sol") "contract Token {}")
              (Some "contract Token {}") (Some "Token") (Some "sol")
              eq_refl eq_refl)
    as (payload & Hpayload & _ & [(_ & _ & Hwrites)|(parsed & Hparsed & _)]).
  - injection Hpayload as <-. exact Hwrites.
  - injection Hpayload as <-. discriminate Hparsed.
Defined.

(** C5 as stated fails: a source that parses to an object with an empty
    [sources] member is fetched with success, has no file, and is
    materialized with success without writing one. *)
Lemma fetch_succeeds_without_files :
  fetchSource (platform := Example.node) (Some Example.address)
    (ChainName "ethereum")
  = Ok (mkBundle (Some "Token") (Some (JObj [])) None)
  ∧ objectEntries (Some (JObj [])) = Some []
  ∧ materialize true "out" (mkBundle (Some "Token") (Some (JObj [])) None)
      Example.out
    = Exited 0 Example.out.
Proof. by vm_compute. Qed.

(** No remappings, no file; two remappings, two lines. *)
Lemma remappings_file_witness :
  writeRemappings None "out" Example.out = (Ok (), Example.out)
  ∧ writeRemappings (Some (JArr [JStr "@x/=lib/x/"; JStr "@y/=lib/y/"])) "out"
      Example.out
    = (Ok (), <["out/remappings.txt" :=
                  File ("@x/=lib/x/" +:+ newline +:+ "@y/=lib/y/")]> Example.out).
Proof.
  split.
  - exact (proj1 (remappings_file None "out" Example.out) eq_refl).
  - exact (proj1 (proj1 (proj2 (remappings_file
                           (Some (JArr [JStr "@x/=lib/x/"; JStr "@y/=lib/y/"]))
                           "out" Example.out))
                    [JStr "@x/=lib/x/"; JStr "@y/=lib/y/"] Example.out
                    eq_refl eq_refl eq_refl eq_refl)).
Defined.

(** C6 as stated fails: an empty array of remappings is truthy, and an
    empty [remappings.txt] is written. *)
Lemma empty_remappings_written :
  jsonTruthy (Some (JArr [])) = true
  ∧ writeRemappings (Some (JArr [])) "out" Example.out
    = (Ok (), <["out/remappings.txt" := File ""]> Example.out)
  ∧ materialize true "out" (Example.bundleOf [("A.sol", "x")] (Some (JArr [])))
      Example.out
    = Exited 0 (<["out/remappings.txt" := File ""]>
                  (<["out/A.sol" := File "x"]> Example.out)).
Proof. by vm_compute. Qed.




(** Two bundles with the same path into an empty destination. *)
Lemma conflict_safety_witness :
  let first := Example.bundleOf [("A.sol", "one")] None in
  let second := Example.bundleOf [("A.sol", "two")] None in
  let fs1 : Fs.state := <["out/A.sol" := File "one"]> Example.out in
  let fs2 : Fs.state := <["out/A.conflict1.sol" := File "two"]> fs1 in
  materialize true "out" first Example.out = Exited 0 fs1
  ∧ materialize true "out" second fs1 = Exited 0 fs2
  ∧ Example.out ⊆ fs1 ∧ fs1 ⊆ fs2
  ∧ Fs.nodeAt fs2 "out/A.sol" = Some (File "one").
Proof.
  intros first second fs1 fs2.
  assert (materialize true "out" first Example.out = Exited 0 fs1) as Hfirst
    by (vm_compute; reflexivity).
  destruct (conflict_safety "out" first second [("A.sol", "two")]
              "A.sol" "one" "two" 0 Example.out fs1
              Hfirst eq_refl ltac:(left) eq_refl ltac:(discriminate))
    as (Hframe & Hcreated & _).
  assert (materialize true "out" second fs1 = Exited 0 fs2) as Hsecond
    by exact (Hcreated eq_refl eq_refl eq_refl eq_refl).
  destruct (Hframe fs2 Hsecond) as (Hsub & Hsub' & Hkept & _).
  repeat split; assumption.
Defined.

(** C9 as stated fails: with [.conflict1] taken before the first run,
    the content of the second bundle goes to [.conflict2], and
    [.conflict1] keeps what it held. The same happens from an empty
    destination when the first bundle has a file of that name. *)
Lemma conflict1_taken :
  let first := Example.bundleOf [("A.sol", "one")] None in
  let second := Example.bundleOf [("A.sol", "two")] None in
  let fs0 : Fs.state := <["out/A.conflict1.sol" := File "old"]> Example.out in
  let fs1 : Fs.state := <["out/A.sol" := File "one"]> fs0 in
  let fs2 : Fs.state := <["out/A.conflict2.sol" := File "two"]> fs1 in
  let both :=
    Example.bundleOf [("A.sol", "one"); ("A.conflict1.sol", "old")] None in
  materialize true "out" first fs0 = Exited 0 fs1
  ∧ materialize true "out" second fs1 = Exited 0 fs2
  ∧ generateFileName "out/A.sol" 1 = "out/A.conflict1.sol"
  ∧ fs2 !! "out/A.conflict1.sol" = Some (File "old")
  ∧ fs2 !! "out/A.conflict2.sol" = Some (File "two")
  ∧ materialize true "out" both Example.out = Exited 0 fs1
  ∧ "old" ≠ "two".
Proof. by vm_compute. Qed.


(** ** Further examples *)

(** The merge flag between the contract and the directory. *)
Lemma merge_flag_anywhere_witness :
  parseArgs (platform := Example.node) Sample.chains
    [Example.address; "-m"; "out"]
  = Ok (mkArgs (ChainName "ethereum") (Some Example.address) (Some "out") true).
Proof.
  apply (proj1 (merge_flag_anywhere (platform := Example.node) Sample.chains
                  "-m" [Example.address] ["out"] (or_introl eq_refl)
                  ltac:(compute_done) ltac:(compute_done))
           (mkArgs (ChainName "ethereum") (Some Example.address) (Some "out")
              false)).
  reflexivity.
Defined.

(** Both spellings of the merge flag: [-m] becomes the contract and the
    address becomes the directory. *)
Lemma merge_flag_twice_witness :
  parseArgs (platform := Example.node) Sample.chains
    ["-m"; "--merge"; Example.address]
  = Ok (mkArgs (ChainName "ethereum") (Some "-m") (Some Example.address) true).
Proof.
  exact (merge_flag_twice (platform := Example.node) Sample.chains
           "-m" "--merge" [Example.address]
           (or_introl eq_refl) (or_intror eq_refl)
           ltac:(compute_done) ltac:(compute_done) ltac:(compute_done)
           eq_refl).
Defined.

(** The chain flag after the contract. *)
Lemma chain_flag_anywhere_witness :
  parseArgs (platform := Example.node) Sample.chains
    [Example.explorerUrl; "--chain"; "polygon"; "out"]
  = Ok (mkArgs (ChainName "polygon") (Some Example.address) (Some "out") false).
Proof.
  exact (chain_flag_anywhere (platform := Example.node) Sample.chains
           "polygon" [Example.explorerUrl] ["out"]
           ltac:(discriminate) ltac:(discriminate) ltac:(discriminate)
           ltac:(compute_done) ltac:(compute_done) ltac:(compute_done)).
Defined.

(** The chain flag without a value. *)
Lemma chain_flag_last_witness :
  parseArgs (platform := Example.node) Sample.chains
    [Example.explorerUrl; "--chain"]
  = Ok (mkArgs (ChainNum 1) (Some Example.address) None false).
Proof.
  exact (eq_trans
           (chain_flag_last (platform := Example.node) Sample.chains
              [Example.explorerUrl] ltac:(compute_done))
           eq_refl).
Defined.

(** An address, an explorer URL and an aggregator URL, each with a
    directory and no flag. *)
Lemma default_chain_witness :
  parseArgs (platform := Example.node) Sample.chains [Example.address; "out"]
  = Ok (mkArgs (ChainName "ethereum") (Some Example.address) (Some "out") false)
  ∧ parseArgs (platform := Example.node) Sample.chains
      [Example.explorerUrl; "out"]
    = Ok (mkArgs (ChainNum 1) (Some Example.address) (Some "out") false)
  ∧ parseArgs (platform := Example.node) Sample.chains
      [Example.blockscanUrl; "out"]
    = Ok (mkArgs (ChainName "mantle") (Some Example.address) (Some "out") false).
Proof.
  split; [|split].
  - exact (proj1 (default_chain (platform := Example.node) Sample.chains
                    Example.address ["out"]
                    ltac:(compute_done) ltac:(compute_done)
                    ltac:(compute_done))
             eq_refl).
  - exact (proj1 (proj2 (default_chain (platform := Example.node)
                           Sample.chains Example.explorerUrl ["out"]
                           ltac:(compute_done) ltac:(compute_done)
                           ltac:(compute_done)))
             (mkURL "etherscan.io" ("/address/" +:+ Example.address))
             Sample.registry 1%Z Example.address
             eq_refl ltac:(discriminate) eq_refl eq_refl ltac:(discriminate)
             eq_refl).
  - exact (proj2 (proj2 (default_chain (platform := Example.node)
                           Sample.chains Example.blockscanUrl ["out"]
                           ltac:(compute_done) ltac:(compute_done)
                           ltac:(compute_done)))
             (mkURL "vscode.blockscan.com" ("/mantle/" +:+ Example.address))
             "mantle" Example.address [] eq_refl eq_refl eq_refl eq_refl).
Defined.


(** An empty source under a proxy address, and a source that is not
    JSON. *)
Lemma source_decides_fetch_witness :
  normalize (platform := Example.node) Example.proxyWithoutSource
  = Err NoSourceFound
  ∧ is_ok (normalize (platform := Example.node) Example.plainSource) = true.
Proof.
  split.
  - exact (proj1 (proj2 (source_decides_fetch (platform := Example.node)
                           Example.proxyWithoutSource)) eq_refl).
  - exact (proj1 (source_decides_fetch (platform := Example.node)
                    Example.plainSource) eq_refl).
Defined.

(** The source [123] is JSON and has no files: the fetch succeeds and
    every run ends with code 1. *)
Lemma bundle_without_sources_witness :
  ∃ bundle,
    normalize (platform := Scenario.node) Scenario.numberSource = Ok bundle
    ∧ ∀ merge outputRoot fs,
        materialize merge outputRoot bundle fs = Exited 1 fs.
Proof.
  exact (bundle_without_sources (platform := Scenario.node)
           Scenario.numberSource "123" (Some "Token") (Some "sol")
           (JNum "123") eq_refl ltac:(discriminate) eq_refl
           ltac:(discriminate) (or_introl eq_refl)).
Defined.

(** A flattened source becomes [out/Token.sol]. *)
Lemma flattened_source_file_witness :
  normalize (platform := Example.node) Example.plainSource
  = Ok (singleFile (Some "Token") (Some "sol") "contract Token {}")
  ∧ materialize true "out"
      (singleFile (Some "Token") (Some "sol") "contract Token {}") Example.out
    = Exited 0 (<["out/Token.sol" := File "contract Token {}"]> Example.out).
Proof.
  exact (flattened_source_file (platform := Example.node) Example.plainSource
           "contract Token {}" "out" (Some "Token") (Some "sol")
           Example.out Example.out
           eq_refl ltac:(discriminate) (or_introl eq_refl)
           eq_refl eq_refl eq_refl).
Defined.

(** A file with an extension, a file without, a hidden file and a
    directory with a dot in its name. *)
Lemma conflict_name_placement_witness :
  generateFileName "out/A.sol" 1 = "out/A.conflict1.sol"
  ∧ generateFileName "out/Makefile" 1 = "out/Makefile.conflict1"
  ∧ generateFileName "out/.env" 1 = "out/.conflict1.env"
  ∧ generateFileName "out/v1.2/README" 1 = "out/v1.2/README.conflict1".
Proof.
  destruct (conflict_name_placement 1 (le_n 1)) as [Hextension Hplain].
  split; [|split; [|split]].
  - exact (Hextension "out/A" "sol" ltac:(discriminate) eq_refl).
  - exact (Hplain "out/" "Makefile" (or_intror eq_refl) eq_refl).
  - exact (Hextension "out/" "env" ltac:(discriminate) eq_refl).
  - exact (Hplain "out/v1.2/" "README" (or_intror eq_refl) eq_refl).
Defined.

(** The first two conflict names of a path. *)
Lemma conflict_names_distinct_witness :
  generateFileName "out/A.sol" 1 ≠ generateFileName "out/A.sol" 2.
Proof.
  exact (conflict_names_distinct "out/A.sol" 1 2 ltac:(discriminate)).
Defined.

(** A write over another content: one file more, the conflict file. *)
Lemma write_footprint_witness :
  let fs' : Fs.state := <["out/A.conflict1.sol" := File "new"]> Scenario.taken in
  Scenario.taken ⊆ fs'
  ∧ ((∀ p c, Fs.nodeAt fs' p = Some (File c)
             ↔ Fs.nodeAt Scenario.taken p = Some (File c))
     ∨ ((Ok () : result WriteError unit) = Ok ()
        ∧ ∃ n, n ≤ 1000
               ∧ Fs.nodeAt Scenario.taken (generateFileName "out/A.sol" n)
                 = None
               ∧ ∀ p c, Fs.nodeAt fs' p = Some (File c) ↔
                        Fs.nodeAt Scenario.taken p = Some (File c)
                        ∨ (p = generateFileName "out/A.sol" n ∧ c = "new"))).
Proof.
  exact (write_footprint "A.sol" "new" "out" Scenario.taken
           (<["out/A.conflict1.sol" := File "new"]> Scenario.taken) (Ok ())
           eq_refl).
Defined.

(** With the path taken by another content, the write ends in one of
    the two ways. *)
Lemma conflict_limit_witness :
  (∃ n, 1 ≤ n ≤ 1000
        ∧ ¬ is_Some (Fs.nodeAt Scenario.taken (generateFileName "out/A.sol" n))
        ∧ (∀ m, 1 ≤ m < n →
                is_Some (Fs.nodeAt Scenario.taken
                           (generateFileName "out/A.sol" m)))
        ∧ writeSourceWithMerge "A.sol" "new" "out" Scenario.taken
          = (Ok (), <[generateFileName "out/A.sol" n := File "new"]>
                      Scenario.taken))
  ∨ ((∀ m, 1 ≤ m ≤ 1000 →
           is_Some (Fs.nodeAt Scenario.taken (generateFileName "out/A.sol" m)))
     ∧ writeSourceWithMerge "A.sol" "new" "out" Scenario.taken
       = (Err TooManyConflicts, Scenario.taken)).
Proof.
  exact (conflict_limit "A.sol" "old" "new" "out" Scenario.taken
           eq_refl ltac:(discriminate) eq_refl eq_refl).
Defined.

(** The key [dir] where [out/dir] is a directory, and the key [dir/]. *)
Lemma directory_at_target_witness :
  writeSourceWithMerge "dir" "x" "out" (<["out/dir" := Dir]> Example.out)
  = (Err (FsError EISDIR), <["out/dir" := Dir]> Example.out)
  ∧ writeSourceWithMerge "dir/" "x" "out" Example.out
    = (Err (FsError EISDIR), Example.out).
Proof.
  split.
  - exact (proj1 (directory_at_target "dir" "x" "out"
                    (<["out/dir" := Dir]> Example.out))
             eq_refl eq_refl eq_refl).
  - exact (proj2 (directory_at_target "dir/" "x" "out" Example.out)
             eq_refl Example.out eq_refl).
Defined.

(** The key [../evil.sol] is written beside the destination [out]. *)
Lemma parent_key_escapes_witness :
  Path.join "out" "../evil.sol" = "evil.sol"
  ∧ writeSourceWithMerge "../evil.sol" "x" "out" Example.out
    = (Ok (), <["evil.sol" := File "x"]> Example.out).
Proof.
  exact (parent_key_escapes "out" "evil.sol" "x" Example.out
           eq_refl eq_refl eq_refl).
Defined.







